(** * mvstats: vectorised covariance, correlation, regression and detrending

    A shallow embedding of [mvstats/mvstats.py].  The five functions of the
    module ([cov], [cor], [reg], [linregress_ND], [detrend_ND_xr]) are
    written line by line over a small model of the two collaborators they
    consume:

    - the floating-point arithmetic of Python/numpy, as an interface
      [Arith]; its instance [binary64] is IEEE 754 double precision, the
      arithmetic the program runs on.  The order in which numpy adds the
      values of a series is not fixed by the program (numpy adds eight or
      more contiguous values pairwise, fewer in order), so the reduction
      [np_sum] is an operation of the interface, and [binary64] takes it
      as a parameter;
    - xarray's labelled arrays: an array is a time axis (a list of
      coordinate labels), the remaining dimensions with their labels, and
      one time series per cell of the remaining dimensions.  Calls on two
      arrays whose remaining dimensions differ (and neither is without
      any) are outside the model: they give [Beyond]. *)

From Stdlib Require Import String List ZArith Bool Lia.
From Stdlib Require Import Floats.
Import ListNotations.

Set Implicit Arguments.

(* A decimal literal stands for the binary64 value nearest to it. *)
Set Warnings "-inexact-float".

(** ** The arithmetic interface *)

Class Arith (F : Type) : Type := {
  of_Z  : Z -> F;           (* conversion of a Python int *)
  add   : F -> F -> F;
  sub   : F -> F -> F;
  mul   : F -> F -> F;
  div   : F -> F -> F;      (* array division: never raises *)
  sqrt  : F -> F;           (* np.sqrt *)
  absf  : F -> F;           (* np.abs *)
  nan   : F;                (* the missing value *)
  isnan : F -> bool;        (* np.isnan *)
  feq   : F -> F -> bool;   (* Python's == on floats *)
  np_sum : list F -> F      (* np.add.reduce over the values of one series *)
}.

(** ** Exceptions *)

Inductive exn : Set := ValueError | MemoryError.

(** What a call gives: a value, an exception, or [Beyond] when the call is
    outside the model (nothing is said about such a call). *)
Inductive result (A : Type) : Type :=
| Ok (a : A)
| Raise (e : exn)
| Beyond.

Arguments Ok {A} a.
Arguments Raise {A} e.
Arguments Beyond {A}.

Definition bind {A B : Type} (r : result A) (k : A -> result B) : result B :=
  match r with
  | Ok a => k a
  | Raise e => Raise e
  | Beyond => Beyond
  end.

Definition rmap {A B : Type} (f : A -> B) (r : result A) : result B :=
  bind r (fun a => Ok (f a)).

(** ** Labelled arrays *)

(** The non-time dimensions of an array, in order: name and coordinate
    labels of each. *)
Definition dimsT : Type := list (string * list Z).

Definition dims_eq_dec : forall a b : dimsT, {a = b} + {a <> b}.
Proof.
  apply list_eq_dec. intros [s l] [s' l'].
  destruct (string_dec s s') as [->|];
    [destruct (list_eq_dec Z.eq_dec l l') as [->|]|];
    [left; reflexivity | right; congruence | right; congruence].
Defined.

Definition ncells (d : dimsT) : nat :=
  fold_right (fun p acc => (length (snd p) * acc)%nat) 1%nat d.

Fixpoint map2 {A B C : Type} (f : A -> B -> C) (u : list A) (v : list B) : list C :=
  match u, v with
  | a :: u', b :: v' => f a b :: map2 f u' v'
  | _, _ => []
  end.

(** Broadcasting of two operands by dimension names.  Operands with the
    same dimensions are combined cell by cell; an operand without
    dimensions (a scalar: one cell) is combined with every cell of the
    other.  Operands whose dimensions differ otherwise are outside the
    model (see [compatible]): the functions of the module meet them only
    after [align], which gives [Beyond] for them. *)
Definition bcast {A B C : Type} (f : A -> B -> C)
    (da : dimsT) (u : list A) (db : dimsT) (v : list B) : dimsT * list C :=
  if dims_eq_dec da db then (da, map2 f u v)
  else match da, u with
       | [], [a] => (db, map (f a) v)
       | _, _ =>
         match db, v with
         | [], [b] => (da, map (fun a => f a b) u)
         | _, _ => (da, map2 f u v)
         end
       end.

Section Model.

Context {F : Type} `{Arith F}.

(** [DataArray]: an xarray.DataArray whose first dimension is 'time'.
    [series] holds one time series per cell of the other dimensions. *)
Record DataArray : Type := mkDA {
  dims   : dimsT;
  time   : list Z;
  series : list (list F)
}.

(** [Statistic]: a DataArray without the 'time' dimension. *)
Record Statistic : Type := mkStat {
  sdims : dimsT;
  cell  : list F
}.

(** Shape: one series per cell, each as long as the time axis. *)
Definition wf (a : DataArray) : Prop :=
  length (series a) = ncells (dims a) /\
  Forall (fun s => length s = length (time a)) (series a).

Definition compatible (da db : dimsT) : Prop :=
  da = db \/ da = [] \/ db = [].

Definition compatibleb (da db : dimsT) : bool :=
  if dims_eq_dec da db then true
  else match da, db with
       | [], _ => true
       | _, [] => true
       | _, _ => false
       end.

(** *** numpy reductions *)

Definition notnan (a : F) : bool := negb (isnan a).

Definition count_valid (l : list F) : nat := length (filter notnan l).

(** The nan-skipping reductions xarray applies to float data
    (skipna defaults to True): NaN is replaced by 0 and the counts are those
    of the values that are not NaN. *)
Definition replace_nan (l : list F) : list F :=
  map (fun a => if isnan a then of_Z 0 else a) l.

Definition nansum (l : list F) : F := np_sum (replace_nan l).

Definition of_nat (n : nat) : F := of_Z (Z.of_nat n).

Definition nanmean (l : list F) : F :=
  div (nansum l) (of_nat (count_valid l)).

(** np.nanstd with ddof = 0: the deviations from the mean (0 at the missing
    places) are squared and summed, the sum is divided by the count. *)
Definition nanvar (l : list F) : F :=
  let avg := nanmean l in
  let arr := map (fun a => if isnan a then of_Z 0 else sub a avg) l in
  let sqr := map (fun d => mul d d) arr in
  div (np_sum sqr) (of_nat (count_valid l)).

Definition nanstd (l : list F) : F := sqrt (nanvar l).

(** *** xarray operations *)

(** a.mean(dim='time'), a.std(dim='time'), np.sum(a, axis=0) *)
Definition mean_time (a : DataArray) : Statistic :=
  mkStat (dims a) (map nanmean (series a)).

Definition std_time (a : DataArray) : Statistic :=
  mkStat (dims a) (map nanstd (series a)).

Definition sum_axis0 (a : DataArray) : Statistic :=
  mkStat (dims a) (map nansum (series a)).

(** a.shift(time=k): the data move k places along time (towards later
    positions for k > 0, earlier ones for k < 0), the coordinate labels stay,
    the vacated places are filled with NaN. *)
Definition shift_list (k : Z) (l : list F) : list F :=
  let n := length l in
  if (0 <=? k)%Z
  then firstn n (repeat nan (Z.to_nat k) ++ l)
  else skipn (Z.to_nat (- k)) l ++ repeat nan (Nat.min (Z.to_nat (- k)) n).

Definition shift (a : DataArray) (k : Z) : DataArray :=
  mkDA (dims a) (time a) (map (shift_list k) (series a)).

(** a.dropna(dim='time', how='all'): a time position is kept when at least
    one cell holds a value there. *)
Definition valid_at (a : DataArray) (i : nat) : bool :=
  existsb (fun s => notnan (nth i s nan)) (series a).

Definition keep {A : Type} (mask : list bool) (l : list A) : list A :=
  map snd (filter fst (combine mask l)).

Definition dropna (a : DataArray) : DataArray :=
  let mask := map (valid_at a) (seq 0 (length (time a))) in
  mkDA (dims a) (keep mask (time a)) (map (keep mask) (series a)).

(** xr.align(x, y), inner join: arrays with equal time indexes are
    returned as they are.  Otherwise both are reindexed to the labels of x
    that y has too, in the order of x; xarray refuses to reindex an index
    with duplicate labels (ValueError).  The other dimensions need no join
    when they are the same or one array has none; every other pair of
    arrays is outside the model. *)
Definition mem (t : Z) (l : list Z) : bool := existsb (Z.eqb t) l.

(** pandas' Index.is_unique *)
Fixpoint is_unique (l : list Z) : bool :=
  match l with
  | [] => true
  | t :: l' => negb (mem t l') && is_unique l'
  end.

Fixpoint lookup (t : Z) (ts : list Z) (s : list F) : F :=
  match ts, s with
  | t' :: ts', a :: s' => if (t =? t')%Z then a else lookup t ts' s'
  | _, _ => nan
  end.

Definition reindex (a : DataArray) (labels : list Z) : DataArray :=
  mkDA (dims a) labels
       (map (fun s => map (fun t => lookup t (time a) s) labels) (series a)).

Definition align (x y : DataArray) : result (DataArray * DataArray) :=
  if negb (compatibleb (dims x) (dims y)) then Beyond
  else if list_eq_dec Z.eq_dec (time x) (time y) then Ok (x, y)
  else if is_unique (time x) && is_unique (time y)
  then let joined := filter (fun t => mem t (time y)) (time x) in
       Ok (reindex x joined, reindex y joined)
  else Raise ValueError.

(** Arithmetic between arrays and statistics, broadcast by dimension. *)
Definition da_stat (f : F -> F -> F) (a : DataArray) (m : Statistic) : DataArray :=
  let '(d, s) := bcast (fun ser v => map (fun e => f e v) ser)
                       (dims a) (series a) (sdims m) (cell m) in
  mkDA d (time a) s.

Definition stat_da (f : F -> F -> F) (m : Statistic) (a : DataArray) : DataArray :=
  let '(d, s) := bcast (fun v ser => map (fun e => f v e) ser)
                       (sdims m) (cell m) (dims a) (series a) in
  mkDA d (time a) s.

Definition da_da (f : F -> F -> F) (a b : DataArray) : DataArray :=
  let '(d, s) := bcast (map2 f) (dims a) (series a) (dims b) (series b) in
  mkDA d (time a) s.

Definition stat_stat (f : F -> F -> F) (u v : Statistic) : Statistic :=
  let '(d, c) := bcast f (sdims u) (cell u) (sdims v) (cell v) in
  mkStat d c.

Definition stat_map (f : F -> F) (u : Statistic) : Statistic :=
  mkStat (sdims u) (map f (cell u)).

(** a.rolling(time=w, center=True).mean(): the window of position i covers
    the w positions starting at i - w//2; min_periods defaults to w, so
    the mean is NaN unless all w places exist and hold a value. *)
Definition moving_mean (w : nat) (s : list F) : list F :=
  let padded := repeat nan (w / 2) ++ s ++ repeat nan (w - 1 - w / 2) in
  map (fun i =>
         let win := firstn w (skipn i padded) in
         if (count_valid win <? w)%nat then nan
         else div (nansum win) (of_nat (count_valid win)))
      (seq 0 (length s)).

(** a.mean(): the mean of all values of the array, a scalar. *)
Definition mean_all (a : DataArray) : Statistic :=
  let rows := map (fun i => map (fun s => nth i s nan) (series a))
                  (seq 0 (length (time a))) in
  mkStat [] [nanmean (concat rows)].

(** ** The module *)

Definition cov (x y : DataArray) (lagx lagy : Z) : result Statistic :=
  (* 1. lag *)
  let x := if negb (lagx =? 0)%Z then dropna (shift x (- lagx)) else x in
  let y := if negb (lagy =? 0)%Z then dropna (shift y (- lagy)) else y in
  (* 2. align *)
  bind (align x y) (fun '(x, y) =>
  (* 3. length, mean and standard deviation along time *)
  let n := length (time x) in
  let xmean := mean_time x in
  let ymean := mean_time y in
  let xstd := std_time x in
  let ystd := std_time y in
  (* 4. covariance along time *)
  let cov := stat_map (fun s => div s (of_nat n))
               (sum_axis0 (da_da mul (da_stat sub x xmean) (da_stat sub y ymean))) in
  Ok cov).

Definition cor (x y : DataArray) (lagx lagy : Z) : result Statistic :=
  let x := if negb (lagx =? 0)%Z then dropna (shift x (- lagx)) else x in
  let y := if negb (lagy =? 0)%Z then dropna (shift y (- lagy)) else y in
  bind (align x y) (fun '(x, y) =>
  let n := length (time x) in
  let xmean := mean_time x in
  let ymean := mean_time y in
  let xstd := std_time x in
  let ystd := std_time y in
  let cov := stat_map (fun s => div s (of_nat n))
               (sum_axis0 (da_da mul (da_stat sub x xmean) (da_stat sub y ymean))) in
  (* 5. correlation along time *)
  let cor := stat_stat div cov (stat_stat mul xstd ystd) in
  Ok cor).

Definition reg (x y : DataArray) (lagx lagy : Z) : result (Statistic * Statistic) :=
  let x := if negb (lagx =? 0)%Z then dropna (shift x (- lagx)) else x in
  let y := if negb (lagy =? 0)%Z then dropna (shift y (- lagy)) else y in
  bind (align x y) (fun '(x, y) =>
  let n := length (time x) in
  let xmean := mean_time x in
  let ymean := mean_time y in
  let xstd := std_time x in
  let ystd := std_time y in
  let cov := stat_map (fun s => div s (of_nat n))
               (sum_axis0 (da_da mul (da_stat sub x xmean) (da_stat sub y ymean))) in
  (* 5. regression slope and intercept; xstd**2 is xstd*xstd *)
  let slope := stat_stat div cov (stat_map (fun s => mul s s) xstd) in
  let intercept := stat_stat sub ymean (stat_stat mul xmean slope) in
  Ok (slope, intercept)).

Section Linregress.

(** scipy.stats.t.sf: the survival function (1 - CDF) of Student's t
    distribution, at a value and a number of degrees of freedom. *)
Variable t_sf : F -> Z -> F.

Definition linregress_ND (x y : DataArray) (lagx lagy : Z)
  : result (Statistic * Statistic * Statistic * Statistic * Statistic * Statistic) :=
  let x := if negb (lagx =? 0)%Z then dropna (shift x (- lagx)) else x in
  let y := if negb (lagy =? 0)%Z then dropna (shift y (- lagy)) else y in
  bind (align x y) (fun '(x, y) =>
  let n := length (time x) in
  let xmean := mean_time x in
  let ymean := mean_time y in
  let xstd := std_time x in
  let ystd := std_time y in
  let cov := stat_map (fun s => div s (of_nat n))
               (sum_axis0 (da_da mul (da_stat sub x xmean) (da_stat sub y ymean))) in
  let cor := stat_stat div cov (stat_stat mul xstd ystd) in
  let slope := stat_stat div cov (stat_map (fun s => mul s s) xstd) in
  let intercept := stat_stat sub ymean (stat_stat mul xmean slope) in
  (* 7. t-statistic, standard error and p-value; n - 2 is a Python int *)
  let df := (Z.of_nat n - 2)%Z in
  let tstats :=
    stat_stat div
      (stat_map (fun c => mul c (sqrt (of_Z df))) cor)
      (stat_map sqrt (stat_map (fun c2 => sub (of_Z 1) c2)
                               (stat_map (fun c => mul c c) cor))) in
  let stderr := stat_stat div slope tstats in
  let pval := map (fun t => mul (t_sf t df) (of_Z 2)) (map absf (cell tstats)) in
  let pval := mkStat (sdims cor) pval in
  Ok (cov, cor, slope, intercept, pval, stderr)).

End Linregress.

Section Detrending.

(** What the library answers to a positive window it cannot build, from
    the window, the number of time positions and the other dimensions:
    the padded array may not fit in memory, or the window may be longer
    than the library accepts for the series; [None] when the window is
    built.  The program leaves this to the library. *)
Variable window_error : Z -> nat -> dimsT -> option exn.

(** a.rolling(time=w, center=True).mean(): xarray refuses a window that is
    not positive ("window must be > 0"). *)
Definition rolling_mean (a : DataArray) (w : Z) : result DataArray :=
  if (w <=? 0)%Z then Raise ValueError
  else match window_error w (length (time a)) (dims a) with
       | Some e => Raise e
       | None =>
         Ok (mkDA (dims a) (time a) (map (moving_mean (Z.to_nat w)) (series a)))
       end.

Definition detrend_ND_xr (y : DataArray) (rolling_mean_window : Z) : result DataArray :=
  (* 1. boxcar filter *)
  bind (rolling_mean y rolling_mean_window) (fun y_deseason =>
  (* 2. index array x for y *)
  let x := mkDA [] (time y)
                [map (fun i => of_nat i) (seq 0 (length (time y)))] in
  (* 3. regression of the deseasoned y on x *)
  bind (reg x y_deseason 0 0) (fun '(slope, intercept) =>
  (* 4. trend *)
  let y_trend := da_stat add (stat_da mul slope x) intercept in
  (* 5. subtract the trend *)
  let det := da_stat add (da_da sub y y_trend) (mean_all y) in
  Ok det)).

End Detrending.

End Model.

Arguments DataArray F : clear implicits.
Arguments Statistic F : clear implicits.

(** ** IEEE 754 binary64: the arithmetic of Python floats *)

Definition b64_of_Z (z : Z) : float :=
  match z with
  | Z0 => PrimFloat.zero
  | Zpos _ => PrimFloat.of_uint63 (Uint63.of_Z z)
  | Zneg p => PrimFloat.opp (PrimFloat.of_uint63 (Uint63.of_Z (Zpos p)))
  end.

(** numpy's order of additions over a series of binary64 values. *)
Class Reduction : Type := add_reduce : list float -> float.

#[export] Instance binary64 {r : Reduction} : Arith float := {|
  of_Z  := b64_of_Z;
  add   := PrimFloat.add;
  sub   := PrimFloat.sub;
  mul   := PrimFloat.mul;
  div   := PrimFloat.div;
  sqrt  := PrimFloat.sqrt;
  absf  := PrimFloat.abs;
  nan   := PrimFloat.nan;
  isnan := PrimFloat.is_nan;
  feq   := PrimFloat.eqb;
  np_sum := add_reduce
|}.

(** The additions in order, from 0.0: what numpy does with fewer than
    eight values. *)
Definition in_order : Reduction :=
  fun l => fold_left PrimFloat.add l PrimFloat.zero.

(** binary64 with the additions in order: the arithmetic of the examples
    below, which all have fewer than eight values in a series. *)
Definition b64 : Arith float := @binary64 in_order.

(** ** The textbook statistics

    The population moments of a series, as the specification words them:
    plain sums over the n time positions, divided by n. *)

Section Textbook.

Context {F : Type} `{Arith F}.

Definition pop_mean (xs : list F) : F :=
  div (np_sum xs) (of_nat (length xs)).

Definition pop_cov (xs ys : list F) : F :=
  div (np_sum (map2 (fun a b => mul (sub a (pop_mean xs)) (sub b (pop_mean ys))) xs ys))
      (of_nat (length xs)).

Definition pop_var (xs : list F) : F :=
  div (np_sum (map (fun a => mul (sub a (pop_mean xs)) (sub a (pop_mean xs))) xs))
      (of_nat (length xs)).

Definition pop_std (xs : list F) : F := sqrt (pop_var xs).

(** correlation, slope and intercept of two series *)
Definition pop_cor (xs ys : list F) : F :=
  div (pop_cov xs ys) (mul (pop_std xs) (pop_std ys)).

Definition ols_slope (xs ys : list F) : F :=
  div (pop_cov xs ys) (mul (pop_std xs) (pop_std xs)).

Definition ols_intercept (xs ys : list F) : F :=
  sub (pop_mean ys) (mul (pop_mean xs) (ols_slope xs ys)).

(** t-statistic, standard error and two-sided p-value of a correlation
    [c] and slope [s] over [n] time positions. *)
Definition t_statistic (n : nat) (c : F) : F :=
  div (mul c (sqrt (of_Z (Z.of_nat n - 2))))
      (sqrt (sub (of_Z 1) (mul c c))).

Definition std_error (n : nat) (c s : F) : F := div s (t_statistic n c).

Definition p_value (t_sf : F -> Z -> F) (n : nat) (c : F) : F :=
  mul (t_sf (absf (t_statistic n c)) (Z.of_nat n - 2)%Z) (of_Z 2).

(** A series, and an array, of numbers: no value is missing. *)
Definition all_numbers (l : list F) : Prop := Forall (fun v => isnan v = false) l.

Definition numeric (a : DataArray F) : Prop := Forall all_numbers (series a).

(** The products (x - mean_x)*(y - mean_y) the module sums. *)
Definition centred_products (x y : DataArray F) : DataArray F :=
  da_da mul (da_stat sub x (mean_time x)) (da_stat sub y (mean_time y)).

(** The covariance line of the four functions, on the arrays the
    alignment returned. *)
Definition moments_cov (x y : DataArray F) : Statistic F :=
  stat_map (fun s => div s (of_nat (length (time x))))
           (sum_axis0 (centred_products x y)).

(** What the vectorised code computes in one cell, from the series of x
    and y there and the number [n] of time positions. *)
Definition cell_products (xs ys : list F) : list F :=
  map2 mul (map (fun e => sub e (nanmean xs)) xs)
           (map (fun e => sub e (nanmean ys)) ys).

Definition cell_cov (n : nat) (xs ys : list F) : F :=
  div (nansum (cell_products xs ys)) (of_nat n).

Definition cell_cor (n : nat) (xs ys : list F) : F :=
  div (cell_cov n xs ys) (mul (nanstd xs) (nanstd ys)).

Definition cell_slope (n : nat) (xs ys : list F) : F :=
  div (cell_cov n xs ys) (mul (nanstd xs) (nanstd xs)).

Definition cell_intercept (n : nat) (xs ys : list F) : F :=
  sub (nanmean ys) (mul (nanmean xs) (cell_slope n xs ys)).

(** The lag step of the four functions. *)
Definition lagged (a : DataArray F) (lag : Z) : DataArray F :=
  if negb (lag =? 0)%Z then dropna (shift a (- lag)) else a.

(** The arrays the statistics are computed on: lagged, then aligned. *)
Definition prepared (x y : DataArray F) (lagx lagy : Z)
  : result (DataArray F * DataArray F) :=
  align (lagged x lagx) (lagged y lagy).

(** The correlation, slope and intercept lines, on the aligned arrays. *)
Definition moments_cor (x y : DataArray F) : Statistic F :=
  stat_stat div (moments_cov x y) (stat_stat mul (std_time x) (std_time y)).

Definition moments_slope (x y : DataArray F) : Statistic F :=
  stat_stat div (moments_cov x y) (stat_map (fun s => mul s s) (std_time x)).

Definition moments_intercept (x y : DataArray F) : Statistic F :=
  stat_stat sub (mean_time y) (stat_stat mul (mean_time x) (moments_slope x y)).

(** y moved one step back by hand: the value of position i+1 under the
    label of position i, the last label dropped. *)
Definition shifted_by_hand (y : DataArray F) : DataArray F :=
  mkDA (dims y) (removelast (time y)) (map (@tl F) (series y)).


(** The components of the tuple [linregress_ND] returns. *)
Definition lr_cov (r : Statistic F * Statistic F * Statistic F * Statistic F * Statistic F * Statistic F) :=
  let '(c, _, _, _, _, _) := r in c.
Definition lr_cor (r : Statistic F * Statistic F * Statistic F * Statistic F * Statistic F * Statistic F) :=
  let '(_, c, _, _, _, _) := r in c.
Definition lr_slope (r : Statistic F * Statistic F * Statistic F * Statistic F * Statistic F * Statistic F) :=
  let '(_, _, s, _, _, _) := r in s.
Definition lr_intercept (r : Statistic F * Statistic F * Statistic F * Statistic F * Statistic F * Statistic F) :=
  let '(_, _, _, i, _, _) := r in i.
Definition lr_pval (r : Statistic F * Statistic F * Statistic F * Statistic F * Statistic F * Statistic F) :=
  let '(_, _, _, _, p, _) := r in p.
Definition lr_stderr (r : Statistic F * Statistic F * Statistic F * Statistic F * Statistic F * Statistic F) :=
  let '(_, _, _, _, _, e) := r in e.

End Textbook.

(** A library that builds every positive window. *)
Definition no_window_error : Z -> nat -> dimsT -> option exn := fun _ _ _ => None.

(** A one-dimensional array over the time labels 0, 1, 2, ... *)
Definition da1 {F : Type} (l : list F) : DataArray F :=
  mkDA [] (map Z.of_nat (seq 0 (length l))) [l].

(** NaN or an infinity: an undefined binary64 result. *)
Definition undefined (a : float) : bool :=
  (PrimFloat.is_nan a || PrimFloat.is_infinity a)%bool.

(** The t-statistic line of [linregress_ND], from the correlation and the
    number of time positions. *)
Definition moments_tstats {F : Type} `{Arith F} (n : nat) (cor : Statistic F) : Statistic F :=
  stat_stat div
    (stat_map (fun c => mul c (sqrt (of_Z (Z.of_nat n - 2)))) cor)
    (stat_map sqrt (stat_map (fun c2 => sub (of_Z 1) c2)
                             (stat_map (fun c => mul c c) cor))).

(** Lines 3 to 7 of [linregress_ND], on the arrays the alignment
    returned. *)
Definition moments_all {F : Type} `{Arith F} (t_sf : F -> Z -> F) (x y : DataArray F)
  : Statistic F * Statistic F * Statistic F * Statistic F * Statistic F * Statistic F :=
  let n := length (time x) in
  let tstats := moments_tstats n (moments_cor x y) in
  (moments_cov x y, moments_cor x y, moments_slope x y, moments_intercept x y,
   mkStat (sdims (moments_cor x y))
          (map (fun t => mul (t_sf t (Z.of_nat n - 2)%Z) (of_Z 2))
               (map absf (cell tstats))),
   stat_stat div (moments_slope x y) tstats).

(** Shape of a statistic: one value per cell of its dimensions. *)
Definition stat_wf {F : Type} (s : Statistic F) : Prop :=
  length (cell s) = ncells (sdims s).

(** The dimensions of a broadcast of compatible operands. *)
Definition bdims (da db : dimsT) : dimsT :=
  if dims_eq_dec da db then da
  else match da with [] => db | _ => da end.

(** The index array [detrend_ND_xr] builds for y: 0, 1, 2, ... under the
    time labels of y. *)
Definition index_array {F : Type} `{Arith F} (y : DataArray F) : DataArray F :=
  mkDA [] (time y) [map (fun i => of_nat i) (seq 0 (length (time y)))].

(** What the rolling mean of [detrend_ND_xr] returns when the window is
    built, and lines 2 to 5 of [detrend_ND_xr] from y and the smoothed y. *)
Definition rolled {F : Type} `{Arith F} (y : DataArray F) (w : Z) : DataArray F :=
  mkDA (dims y) (time y) (map (moving_mean (Z.to_nat w)) (series y)).

Definition detrend_lines {F : Type} `{Arith F} (y y_deseason : DataArray F)
  : DataArray F :=
  let x := index_array y in
  let slope := moments_slope x y_deseason in
  let intercept := moments_intercept x y_deseason in
  let y_trend := da_stat add (stat_da mul slope x) intercept in
  da_stat add (da_da sub y y_trend) (mean_all y).

(** [cellwise P x y s]: in every cell, [P] holds of the series of x and of
    y there and of the value of the statistic [s]. *)
Definition cellwise {F : Type} (P : list F -> list F -> F -> Prop)
    (x y : DataArray F) (s : Statistic F) : Prop :=
  Forall2 (fun xy c => P (fst xy) (snd xy) c)
          (combine (series x) (series y)) (cell s).

(** The lag made by hand.  For a lag L >= 0 the value of position i+L
    comes under the label of position i and the last L labels go; for
    L < 0 the value of position i comes under the label of position i-L
    and the first -L labels go. *)
Definition lag_by_hand {F : Type} (a : DataArray F) (lag : Z) : DataArray F :=
  let n := length (time a) in
  if (0 <=? lag)%Z
  then mkDA (dims a) (firstn (n - Z.to_nat lag) (time a))
            (map (skipn (Z.to_nat lag)) (series a))
  else mkDA (dims a) (skipn (Z.to_nat (- lag)) (time a))
            (map (firstn (n - Z.to_nat (- lag))) (series a)).

(** Splits a conjunction into its parts, and nothing else. *)
Ltac conjuncts := repeat match goal with |- _ /\ _ => split end.

(** * Properties *)

(** ** Lists and broadcasting *)

Lemma map2_map_l {A A' B C : Type} (f : A' -> B -> C) (g : A -> A') u v :
  map2 f (map g u) v = map2 (fun a b => f (g a) b) u v.
Proof.
  revert v; induction u as [|a u IH]; intros [|b v]; simpl; auto.
  now rewrite IH.
Qed.

Lemma map2_map_r {A B B' C : Type} (f : A -> B' -> C) (g : B -> B') u v :
  map2 f u (map g v) = map2 (fun a b => f a (g b)) u v.
Proof.
  revert v; induction u as [|a u IH]; intros [|b v]; simpl; auto.
  now rewrite IH.
Qed.

Lemma map_map2 {A B C D : Type} (h : C -> D) (f : A -> B -> C) u v :
  map h (map2 f u v) = map2 (fun a b => h (f a b)) u v.
Proof.
  revert v; induction u as [|a u IH]; intros [|b v]; simpl; auto.
  now rewrite IH.
Qed.

Lemma map2_diag {A C : Type} (f : A -> A -> C) u :
  map2 f u u = map (fun a => f a a) u.
Proof. induction u as [|a u IH]; simpl; auto. now rewrite IH. Qed.

Lemma map2_length {A B C : Type} (f : A -> B -> C) u v :
  length (map2 f u v) = Nat.min (length u) (length v).
Proof.
  revert v; induction u as [|a u IH]; intros [|b v]; simpl; auto.
Qed.

Lemma map2_ext_in {A B C : Type} (f g : A -> B -> C) u v :
  (forall a b, In (a, b) (combine u v) -> f a b = g a b) ->
  map2 f u v = map2 g u v.
Proof.
  revert v; induction u as [|a u IH]; intros [|b v] Hfg; simpl; auto.
  f_equal.
  - apply Hfg. now left.
  - apply IH. intros a' b' Hin. apply Hfg. now right.
Qed.

Lemma in_map2 {A B C : Type} (f : A -> B -> C) u v a b :
  In (a, b) (combine u v) -> In (f a b) (map2 f u v).
Proof.
  revert v; induction u as [|a' u IH]; intros [|b' v]; simpl; try tauto.
  intros [Heq|Hin]; [left; now inversion Heq | right; auto].
Qed.

Lemma bcast_same {A B C : Type} (f : A -> B -> C) d u v :
  bcast f d u d v = (d, map2 f u v).
Proof.
  unfold bcast. destruct (dims_eq_dec d d) as [_|Hne]; [reflexivity|].
  now contradiction Hne.
Qed.

Lemma bcast_length_same {A B C : Type} (f : A -> B -> C) d u v :
  length u = length v -> length (snd (bcast f d u d v)) = length u.
Proof. intros Hl. rewrite bcast_same. simpl. rewrite map2_length. lia. Qed.

(** ** The reductions on series of numbers *)

Section Reductions.

Context {F : Type} `{Arith F}.

Lemma replace_nan_numbers l : all_numbers l -> replace_nan l = l.
Proof.
  unfold replace_nan. induction 1 as [|a l Ha _ IH]; simpl; auto.
  now rewrite Ha, IH.
Qed.

Lemma count_valid_numbers l : all_numbers l -> count_valid l = length l.
Proof.
  unfold count_valid, notnan. induction 1 as [|a l Ha _ IH]; simpl; auto.
  rewrite Ha. simpl. now f_equal.
Qed.

Lemma nansum_numbers l : all_numbers l -> nansum l = np_sum l.
Proof. intros Hl. unfold nansum. now rewrite replace_nan_numbers. Qed.

Lemma nanmean_numbers l : all_numbers l -> nanmean l = pop_mean l.
Proof.
  intros Hl. unfold nanmean, pop_mean.
  now rewrite nansum_numbers, count_valid_numbers.
Qed.

Lemma nanvar_numbers l : all_numbers l -> nanvar l = pop_var l.
Proof.
  intros Hl. unfold nanvar, pop_var.
  rewrite count_valid_numbers, nanmean_numbers by assumption.
  rewrite map_map. do 2 f_equal.
  apply map_ext_in. intros a Ha.
  unfold all_numbers in Hl. rewrite Forall_forall in Hl.
  now rewrite (Hl a Ha).
Qed.

Lemma nanstd_numbers l : all_numbers l -> nanstd l = pop_std l.
Proof. intros Hl. unfold nanstd, pop_std. now rewrite nanvar_numbers. Qed.


Lemma cell_cov_numbers n xs ys :
  all_numbers xs -> all_numbers ys -> all_numbers (cell_products xs ys) ->
  length xs = n ->
  cell_cov n xs ys = pop_cov xs ys.
Proof.
  intros Hx Hy Hp <-. unfold cell_cov, pop_cov.
  rewrite nansum_numbers by assumption.
  unfold cell_products.
  rewrite map2_map_l, map2_map_r.
  now rewrite !nanmean_numbers by assumption.
Qed.

End Reductions.

(** ** The functions on arrays of equal dimensions *)

Section SameDims.

Context {F : Type} `{Arith F}.

Lemma centred_series (a : DataArray F) :
  da_stat sub a (mean_time a)
  = mkDA (dims a) (time a)
         (map (fun s => map (fun e => sub e (nanmean s)) s) (series a)).
Proof.
  unfold da_stat, mean_time. simpl. rewrite bcast_same.
  f_equal. rewrite map2_map_r. apply map2_diag.
Qed.

Lemma centred_products_series (x y : DataArray F) :
  dims x = dims y ->
  centred_products x y
  = mkDA (dims x) (time x) (map2 cell_products (series x) (series y)).
Proof.
  intros Hd. unfold centred_products. rewrite !centred_series.
  unfold da_da. simpl. rewrite <- Hd, bcast_same.
  f_equal. rewrite map2_map_l, map2_map_r. reflexivity.
Qed.

Lemma moments_cov_cells (x y : DataArray F) :
  dims x = dims y ->
  moments_cov x y
  = mkStat (dims x) (map2 (cell_cov (length (time x))) (series x) (series y)).
Proof.
  intros Hd. unfold moments_cov. rewrite centred_products_series by assumption.
  unfold stat_map, sum_axis0. simpl. f_equal.
  rewrite map_map, map_map2. reflexivity.
Qed.

Lemma compatibleb_spec (da db : dimsT) :
  compatibleb da db = true <-> compatible da db.
Proof.
  unfold compatibleb, compatible.
  destruct (dims_eq_dec da db) as [Heq|Hne]; [tauto|].
  destruct da as [|p da]; [tauto|].
  destruct db as [|q db]; [tauto|].
  split; [discriminate|]. intros [H1|[H1|H1]]; [contradiction|discriminate..].
Qed.

Lemma compatibleb_same (d : dimsT) : compatibleb d d = true.
Proof. apply compatibleb_spec. now left. Qed.

(** Arrays with one time index (and dimensions the model covers) are
    returned as they are. *)
Lemma align_same_time (x y : DataArray F) :
  time x = time y -> compatible (dims x) (dims y) -> align x y = Ok (x, y).
Proof.
  intros Ht Hc. unfold align.
  apply compatibleb_spec in Hc. rewrite Hc. cbn [negb].
  destruct (list_eq_dec Z.eq_dec (time x) (time y)); [reflexivity|contradiction].
Qed.

Lemma cov_prepared (x y : DataArray F) lagx lagy :
  cov x y lagx lagy
  = rmap (fun p => moments_cov (fst p) (snd p)) (prepared x y lagx lagy).
Proof.
  unfold cov, prepared, lagged, rmap.
  destruct (align _ _) as [[x' y']|e|]; cbn [bind fst snd]; [|reflexivity..].
  unfold moments_cov, centred_products.
  reflexivity.
Qed.

Lemma cor_prepared (x y : DataArray F) lagx lagy :
  cor x y lagx lagy
  = rmap (fun p => moments_cor (fst p) (snd p)) (prepared x y lagx lagy).
Proof.
  unfold cor, prepared, lagged, rmap.
  destruct (align _ _) as [[x' y']|e|]; cbn [bind fst snd]; [|reflexivity..].
  unfold moments_cor, moments_cov, centred_products.
  reflexivity.
Qed.

Lemma reg_prepared (x y : DataArray F) lagx lagy :
  reg x y lagx lagy
  = rmap (fun p => (moments_slope (fst p) (snd p), moments_intercept (fst p) (snd p)))
         (prepared x y lagx lagy).
Proof.
  unfold reg, prepared, lagged, rmap.
  destruct (align _ _) as [[x' y']|e|]; cbn [bind fst snd]; [|reflexivity..].
  unfold moments_intercept, moments_slope, moments_cov, centred_products.
  reflexivity.
Qed.

Lemma prepared_unlagged (x y : DataArray F) :
  time x = time y -> compatible (dims x) (dims y) -> prepared x y 0 0 = Ok (x, y).
Proof. intros Ht Hc. unfold prepared, lagged. simpl. now apply align_same_time. Qed.

Lemma cov_unlagged (x y : DataArray F) :
  time x = time y -> compatible (dims x) (dims y) ->
  cov x y 0 0 = Ok (moments_cov x y).
Proof. intros Ht Hc. now rewrite cov_prepared, prepared_unlagged. Qed.

Lemma cor_unlagged (x y : DataArray F) :
  time x = time y -> compatible (dims x) (dims y) ->
  cor x y 0 0 = Ok (moments_cor x y).
Proof. intros Ht Hc. now rewrite cor_prepared, prepared_unlagged. Qed.

Lemma reg_unlagged (x y : DataArray F) :
  time x = time y -> compatible (dims x) (dims y) ->
  reg x y 0 0 = Ok (moments_slope x y, moments_intercept x y).
Proof. intros Ht Hc. now rewrite reg_prepared, prepared_unlagged. Qed.

End SameDims.

(** ** Covariance *)

Section Covariance.

Context {F : Type} `{Arith F}.



End Covariance.



(** ** The combined routine *)

Section Combined.

Context {F : Type} `{Arith F}.
Variable t_sf : F -> Z -> F.

Lemma linregress_ND_prepared (x y : DataArray F) lagx lagy :
  linregress_ND t_sf x y lagx lagy
  = rmap (fun p => moments_all t_sf (fst p) (snd p)) (prepared x y lagx lagy).
Proof.
  unfold linregress_ND, prepared, lagged, rmap.
  destruct (align _ _) as [[x' y']|e|]; cbn [bind fst snd]; [|reflexivity..].
  unfold moments_all, moments_tstats, moments_intercept, moments_slope,
    moments_cor, moments_cov, centred_products.
  reflexivity.
Qed.

Lemma rmap_rmap {A B C : Type} (g : B -> C) (f : A -> B) (r : result A) :
  rmap g (rmap f r) = rmap (fun a => g (f a)) r.
Proof. now destruct r. Qed.

(** C6.  Without lag, the covariance, correlation, slope and intercept that
    [linregress_ND] returns are the results of [cov], [cor] and [reg] on the
    same arrays: the same values, cell by cell, under the same labels; and
    where one of the calls raises, so do the others, the same exception. *)
Theorem linregress_ND_matches_standalone (x y : DataArray F) :
  rmap lr_cov (linregress_ND t_sf x y 0 0) = cov x y 0 0
  /\ rmap lr_cor (linregress_ND t_sf x y 0 0) = cor x y 0 0
  /\ rmap (fun r => (lr_slope r, lr_intercept r)) (linregress_ND t_sf x y 0 0)
     = reg x y 0 0.
Proof.
  rewrite linregress_ND_prepared, cov_prepared, cor_prepared, reg_prepared.
  rewrite !rmap_rmap. unfold moments_all.
  cbv zeta. cbn [lr_cov lr_cor lr_slope lr_intercept]. repeat split.
Qed.

End Combined.

(** ** Correlation and regression, cell by cell *)

Lemma map2_map2_both {A B C D E : Type} (h : C -> D -> E)
    (f : A -> B -> C) (g : A -> B -> D) u v :
  map2 h (map2 f u v) (map2 g u v) = map2 (fun a b => h (f a b) (g a b)) u v.
Proof.
  revert v; induction u as [|a u IH]; intros [|b v]; simpl; auto.
  now rewrite IH.
Qed.

Lemma map2_map2_left {A B C D E : Type} (h : C -> D -> E)
    (f : A -> B -> C) (g : A -> D) u v :
  map2 h (map2 f u v) (map g u) = map2 (fun a b => h (f a b) (g a)) u v.
Proof.
  revert v; induction u as [|a u IH]; intros [|b v]; simpl; auto.
  now rewrite IH.
Qed.

Lemma map2_left_map2 {A B C D E : Type} (h : D -> C -> E)
    (f : A -> B -> C) (g : A -> D) u v :
  map2 h (map g u) (map2 f u v) = map2 (fun a b => h (g a) (f a b)) u v.
Proof.
  revert v; induction u as [|a u IH]; intros [|b v]; simpl; auto.
  now rewrite IH.
Qed.

Lemma map2_right_map2 {A B C D E : Type} (h : D -> C -> E)
    (f : A -> B -> C) (g : B -> D) u v :
  map2 h (map g v) (map2 f u v) = map2 (fun a b => h (g b) (f a b)) u v.
Proof.
  revert v; induction u as [|a u IH]; intros [|b v]; simpl; auto.
  now rewrite IH.
Qed.

Section CellByCell.

Context {F : Type} `{Arith F}.

Lemma moments_cor_cells (x y : DataArray F) :
  dims x = dims y ->
  moments_cor x y
  = mkStat (dims x) (map2 (cell_cor (length (time x))) (series x) (series y)).
Proof.
  intros Hd. unfold moments_cor. rewrite moments_cov_cells by assumption.
  unfold stat_stat, std_time. simpl. rewrite <- Hd, bcast_same. simpl.
  rewrite bcast_same. f_equal.
  rewrite (map2_map_l mul), (map2_map_r (fun a b => mul (nanstd a) b)).
  now rewrite map2_map2_both.
Qed.

Lemma moments_slope_cells (x y : DataArray F) :
  dims x = dims y ->
  moments_slope x y
  = mkStat (dims x) (map2 (cell_slope (length (time x))) (series x) (series y)).
Proof.
  intros Hd. unfold moments_slope. rewrite moments_cov_cells by assumption.
  unfold stat_stat, stat_map, std_time. simpl. rewrite bcast_same. f_equal.
  rewrite map_map. now rewrite map2_map2_left.
Qed.

Lemma moments_intercept_cells (x y : DataArray F) :
  dims x = dims y ->
  moments_intercept x y
  = mkStat (dims x) (map2 (cell_intercept (length (time x))) (series x) (series y)).
Proof.
  intros Hd. unfold moments_intercept. rewrite moments_slope_cells by assumption.
  unfold stat_stat, mean_time. simpl. rewrite bcast_same. simpl.
  rewrite <- Hd, bcast_same. f_equal.
  rewrite map2_left_map2. now rewrite map2_right_map2.
Qed.

Lemma cell_cor_numbers n xs ys :
  all_numbers xs -> all_numbers ys -> all_numbers (cell_products xs ys) ->
  length xs = n ->
  cell_cor n xs ys = pop_cor xs ys.
Proof.
  intros Hx Hy Hp Hn. unfold cell_cor, pop_cor.
  now rewrite cell_cov_numbers, !nanstd_numbers.
Qed.

Lemma cell_slope_numbers n xs ys :
  all_numbers xs -> all_numbers ys -> all_numbers (cell_products xs ys) ->
  length xs = n ->
  cell_slope n xs ys = ols_slope xs ys.
Proof.
  intros Hx Hy Hp Hn. unfold cell_slope, ols_slope.
  now rewrite cell_cov_numbers, !nanstd_numbers.
Qed.

Lemma cell_intercept_numbers n xs ys :
  all_numbers xs -> all_numbers ys -> all_numbers (cell_products xs ys) ->
  length xs = n ->
  cell_intercept n xs ys = ols_intercept xs ys.
Proof.
  intros Hx Hy Hp Hn. unfold cell_intercept, ols_intercept.
  now rewrite cell_slope_numbers, !nanmean_numbers.
Qed.

(** A cell-wise identity of the code carries over to arrays of numbers. *)
Lemma cells_numbers (g g' : list F -> list F -> F) (x y : DataArray F) :
  (forall xs ys, all_numbers xs -> all_numbers ys ->
                 all_numbers (cell_products xs ys) ->
                 length xs = length (time x) -> g xs ys = g' xs ys) ->
  dims x = dims y -> wf x ->
  numeric x -> numeric y -> numeric (centred_products x y) ->
  map2 g (series x) (series y) = map2 g' (series x) (series y).
Proof.
  intros Hg Hd [_ Hlen] Hx Hy Hp.
  rewrite centred_products_series in Hp by assumption.
  unfold numeric in *. simpl in Hp. rewrite Forall_forall in Hx, Hy, Hp, Hlen.
  apply map2_ext_in. intros xs ys Hin.
  apply Hg.
  - apply Hx. eapply in_combine_l; eauto.
  - apply Hy. eapply in_combine_r; eauto.
  - apply Hp. now apply in_map2.
  - apply Hlen. eapply in_combine_l; eauto.
Qed.

(** X5.  For aligned arrays of numbers and no lag, [cor] returns in every
    cell the population covariance divided by the product of the two
    population standard deviations (denominator n). *)
Lemma cor_numbers (x y : DataArray F) :
  time x = time y -> dims x = dims y -> wf x ->
  numeric x -> numeric y -> numeric (centred_products x y) ->
  cor x y 0 0 = Ok (mkStat (dims x) (map2 pop_cor (series x) (series y))).
Proof.
  intros Ht Hd Hwf Hx Hy Hp.
  rewrite cor_unlagged by (try assumption; now left).
  rewrite moments_cor_cells by assumption. do 2 f_equal.
  apply cells_numbers; auto. intros. now apply cell_cor_numbers.
Qed.


(** X6.  For aligned arrays of numbers and no lag, [reg] returns in every
    cell the slope cov(x,y)/std_x^2 (the standard deviation multiplied by
    itself) and the intercept mean_y - mean_x*slope. *)
Lemma reg_numbers (x y : DataArray F) :
  time x = time y -> dims x = dims y -> wf x ->
  numeric x -> numeric y -> numeric (centred_products x y) ->
  reg x y 0 0 = Ok (mkStat (dims x) (map2 ols_slope (series x) (series y)),
                    mkStat (dims x) (map2 ols_intercept (series x) (series y))).
Proof.
  intros Ht Hd Hwf Hx Hy Hp.
  rewrite reg_unlagged by (try assumption; now left).
  rewrite moments_slope_cells, moments_intercept_cells by assumption.
  f_equal; f_equal; f_equal; apply cells_numbers; auto; intros.
  - now apply cell_slope_numbers.
  - now apply cell_intercept_numbers.
Qed.


End CellByCell.

(** ** Lags *)

Lemma keep_all_but_last {A : Type} (l : list A) (a : A) :
  keep (repeat true (length l) ++ [false]) (l ++ [a]) = l.
Proof.
  unfold keep. induction l as [|b l IH]; simpl; [reflexivity|].
  now rewrite IH.
Qed.

Lemma map_seq_true (f : nat -> bool) (k : nat) :
  (forall i, (i < k)%nat -> f i = true) -> map f (seq 0 k) = repeat true k.
Proof.
  intros Hf. induction k as [|k IH]; [reflexivity|].
  rewrite seq_S, map_app, IH by (intros; apply Hf; lia).
  simpl map. rewrite Hf by lia.
  replace (S k) with (k + 1)%nat by lia.
  now rewrite repeat_app.
Qed.

Lemma existsb_none {A : Type} (f : A -> bool) (l : list A) :
  (forall a, In a l -> f a = false) -> existsb f l = false.
Proof.
  induction l as [|a l IH]; simpl; intros Hf; [reflexivity|].
  rewrite Hf by now left. apply IH. intros; apply Hf; now right.
Qed.

Lemma existsb_map {A B : Type} (f : B -> bool) (g : A -> B) (l : list A) :
  existsb f (map g l) = existsb (fun a => f (g a)) l.
Proof. induction l as [|a l IH]; simpl; [reflexivity|]. now rewrite IH. Qed.

Lemma existsb_ext_in {A : Type} (f g : A -> bool) (l : list A) :
  (forall a, In a l -> f a = g a) -> existsb f l = existsb g l.
Proof.
  induction l as [|a l IH]; simpl; intros Hfg; [reflexivity|].
  rewrite Hfg by now left. f_equal. apply IH. intros; apply Hfg; now right.
Qed.

Section Lag.

Context {F : Type} `{Arith F}.
Hypothesis isnan_nan : isnan nan = true.

(** One step back: every series loses its first value and ends in NaN. *)
Lemma shift_list_back (s : list F) (a : F) :
  shift_list (-1) (a :: s) = s ++ [nan].
Proof. reflexivity. Qed.

Lemma shift_list_back_nil : shift_list (-1) (@nil F) = [].
Proof. reflexivity. Qed.

Lemma valid_at_shift_back (y : DataArray F) (m i : nat) :
  Forall (fun s => length s = S m) (series y) -> (i < m)%nat ->
  valid_at (shift y (-1)) i = valid_at y (S i).
Proof.
  intros Hlen Hi. unfold valid_at, shift. simpl. rewrite existsb_map.
  apply existsb_ext_in. intros s Hs.
  rewrite Forall_forall in Hlen. specialize (Hlen s Hs).
  destruct s as [|a s]; [discriminate|].
  rewrite shift_list_back. simpl in Hlen.
  rewrite app_nth1 by lia. reflexivity.
Qed.

Lemma valid_at_shift_back_last (y : DataArray F) (m : nat) :
  Forall (fun s => length s = S m) (series y) ->
  valid_at (shift y (-1)) m = false.
Proof.
  intros Hlen. unfold valid_at, shift. simpl. rewrite existsb_map.
  apply existsb_none. intros s Hs.
  rewrite Forall_forall in Hlen. specialize (Hlen s Hs).
  destruct s as [|a s]; [discriminate|].
  rewrite shift_list_back. simpl in Hlen.
  rewrite app_nth2 by lia.
  replace (m - length s)%nat with 0%nat by lia. simpl.
  unfold notnan. now rewrite isnan_nan.
Qed.

(** Shifting back by one step and dropping the undefined positions is the
    shift made by hand, for an array without an entirely undefined
    position. *)
Lemma dropna_shift_back (y : DataArray F) :
  wf y ->
  (forall i, (i < length (time y))%nat -> valid_at y i = true) ->
  dropna (shift y (-1)) = shifted_by_hand y.
Proof.
  intros [_ Hlen] Hvalid. unfold dropna, shifted_by_hand. simpl.
  destruct (time y) as [|t0 ts] eqn:Ht using rev_ind.
  - simpl. f_equal. rewrite map_map. apply map_ext_in. intros s Hs.
    rewrite Forall_forall in Hlen. specialize (Hlen s Hs).
    destruct s; [reflexivity|discriminate].
  - clear IHts. rewrite length_app in *. simpl in *.
    replace (length ts + 1)%nat with (S (length ts)) in * by lia.
    set (m := length ts) in *.
    assert (Hmask : map (valid_at (shift y (-1))) (seq 0 (S m))
                    = repeat true m ++ [false]).
    { rewrite seq_S, map_app. simpl. f_equal.
      - apply map_seq_true. intros i Hi.
        rewrite (@valid_at_shift_back y m i) by assumption.
        apply Hvalid. lia.
      - f_equal. now apply valid_at_shift_back_last. }
    rewrite Hmask. f_equal.
    + rewrite removelast_last. apply keep_all_but_last.
    + rewrite map_map. apply map_ext_in. intros s Hs.
      rewrite Forall_forall in Hlen. specialize (Hlen s Hs).
      destruct s as [|a s]; [discriminate|].
      rewrite shift_list_back. simpl in Hlen. simpl.
      replace m with (length s) by lia. apply keep_all_but_last.
Qed.

Lemma cov_lagged (x y : DataArray F) lagx lagy :
  cov x y lagx lagy = cov (lagged x lagx) (lagged y lagy) 0 0.
Proof. rewrite !cov_prepared. reflexivity. Qed.

(** X2.  [cov(x, y, lagx=0, lagy=1)] is [cov(x, y')] without lag, where y'
    is y moved one step back by hand (the value of each position under the
    label of the one before, the last position removed), for every y that
    has no entirely undefined time position.  In general, for any lags, the
    lag parameters amount to shifting the input along time and dropping its
    entirely undefined positions before the alignment. *)
Theorem cov_lag_is_preshift (x y : DataArray F) :
  wf y ->
  (forall i, (i < length (time y))%nat -> valid_at y i = true) ->
  cov x y 0 1 = cov x (shifted_by_hand y) 0 0
  /\ (forall lagx lagy,
        cov x y lagx lagy
        = cov (if (lagx =? 0)%Z then x else dropna (shift x (- lagx)))
              (if (lagy =? 0)%Z then y else dropna (shift y (- lagy))) 0 0).
Proof.
  intros Hwf Hvalid. split.
  - rewrite cov_lagged. unfold lagged. simpl.
    now rewrite dropna_shift_back.
  - intros lagx lagy. rewrite cov_lagged. unfold lagged.
    now destruct (lagx =? 0)%Z, (lagy =? 0)%Z.
Qed.

Lemma keep_app_false {A : Type} (mask : list bool) (l : list A) (a : A) :
  length mask = length l -> keep (mask ++ [false]) (l ++ [a]) = keep mask l.
Proof.
  unfold keep. revert l.
  induction mask as [|b mask IH]; intros [|a' l] Hl; try discriminate;
    [reflexivity|].
  simpl in *. destruct b; simpl; rewrite IH by lia; reflexivity.
Qed.

Lemma valid_at_by_hand (y : DataArray F) (i : nat) :
  valid_at (shifted_by_hand y) i = valid_at y (S i).
Proof.
  unfold valid_at, shifted_by_hand. simpl. rewrite existsb_map.
  apply existsb_ext_in. intros s _. destruct s; [destruct i|]; reflexivity.
Qed.

(** Shifting back by one step and dropping the undefined positions is the
    shift made by hand followed by the same dropping, for every array. *)
Lemma dropna_shift_back_any (y : DataArray F) :
  wf y -> dropna (shift y (-1)) = dropna (shifted_by_hand y).
Proof.
  intros [_ Hlen]. unfold dropna.
  cbn [time dims series shift].
  change (time (shifted_by_hand y)) with (removelast (time y)).
  change (dims (shifted_by_hand y)) with (dims y).
  change (series (shifted_by_hand y)) with (map (@tl F) (series y)).
  destruct (time y) as [|t0 ts] eqn:Ht using rev_ind.
  - simpl. f_equal. rewrite !map_map. apply map_ext_in. intros s Hs.
    rewrite Forall_forall in Hlen. specialize (Hlen s Hs).
    destruct s; [reflexivity|discriminate].
  - clear IHts. rewrite removelast_last, length_app in *. simpl in *.
    replace (length ts + 1)%nat with (S (length ts)) in * by lia.
    set (m := length ts) in *.
    assert (Hmask : map (valid_at (shift y (-1))) (seq 0 (S m))
                    = map (valid_at (shifted_by_hand y)) (seq 0 m) ++ [false]).
    { rewrite seq_S, map_app. simpl. f_equal.
      - apply map_ext_in. intros i Hi. apply in_seq in Hi.
        rewrite (@valid_at_shift_back y m i) by (assumption || lia).
        now rewrite valid_at_by_hand.
      - f_equal. now apply valid_at_shift_back_last. }
    fold (shift y (-1)). rewrite Hmask.
    set (mask := map (valid_at (shifted_by_hand y)) (seq 0 m)).
    assert (Hm : length mask = m) by (unfold mask; now rewrite length_map, length_seq).
    f_equal.
    + now apply keep_app_false.
    + rewrite !map_map. apply map_ext_in. intros s Hs.
      rewrite Forall_forall in Hlen. specialize (Hlen s Hs).
      destruct s as [|a s]; [discriminate|].
      rewrite shift_list_back. simpl in Hlen. simpl tl.
      apply keep_app_false. lia.
Qed.

(** C9 (amended).  [cov(x, y, lagx=0, lagy=1)] is [cov(x, y')] without
    lag, where y' is y moved one step back by hand (the value of each
    position under the label of the one before, the last position removed)
    and then freed of its entirely undefined positions; and for any lags
    the lag parameters amount to shifting the inputs along time and
    dropping their entirely undefined positions before the alignment. *)
Theorem cov_lag_one_by_hand (x y : DataArray F) :
  wf y ->
  cov x y 0 1 = cov x (dropna (shifted_by_hand y)) 0 0
  /\ (forall lagx lagy,
        cov x y lagx lagy
        = cov (if (lagx =? 0)%Z then x else dropna (shift x (- lagx)))
              (if (lagy =? 0)%Z then y else dropna (shift y (- lagy))) 0 0).
Proof.
  intros Hwf. split.
  - rewrite cov_lagged. unfold lagged. simpl.
    now rewrite dropna_shift_back_any.
  - intros lagx lagy. rewrite cov_lagged. unfold lagged.
    now destruct (lagx =? 0)%Z, (lagy =? 0)%Z.
Qed.

End Lag.

Lemma cov_lag_is_preshift_witness :
  @cov float b64 (da1 [1; 2; 3; 4]%float) (da1 [5; 1; 7; 4]%float) 0 1
  = @cov float b64 (da1 [1; 2; 3; 4]%float)
         (shifted_by_hand (da1 [5; 1; 7; 4]%float)) 0 0.
Proof.
  apply (@cov_lag_is_preshift float b64 eq_refl
           (da1 [1; 2; 3; 4]%float) (da1 [5; 1; 7; 4]%float)).
  - split; [reflexivity | repeat constructor].
  - intros i Hi. simpl in Hi.
    destruct i as [|[|[|[|i]]]]; try reflexivity; lia.
Defined.

Lemma cov_lag_one_by_hand_witness :
  @cov float b64 (da1 [1; 2; 3; 4]%float) (da1 [5; PrimFloat.nan; 7; 4]%float) 0 1
  = @cov float b64 (da1 [1; 2; 3; 4]%float)
         (@dropna float b64 (shifted_by_hand (da1 [5; PrimFloat.nan; 7; 4]%float))) 0 0.
Proof.
  apply (@cov_lag_one_by_hand float b64 eq_refl
           (da1 [1; 2; 3; 4]%float) (da1 [5; PrimFloat.nan; 7; 4]%float)).
  split; [reflexivity | repeat constructor].
Defined.

(** C9, as the specification words it, fails for a y with an entirely
    undefined position: with x = [1, 2, 3, 4] and y = [5, NaN, 7, 4], the
    lag drops the undefined position (two positions are left), the y
    shifted by hand keeps it (three are left). *)
Lemma cov_lag_one_needs_dropna :
  @cov float b64 (da1 [1; 2; 3; 4]%float) (da1 [5; PrimFloat.nan; 7; 4]%float) 0 1
  = Ok (mkStat [] [(-0.75)%float])
  /\ @cov float b64 (da1 [1; 2; 3; 4]%float)
          (shifted_by_hand (da1 [5; PrimFloat.nan; 7; 4]%float)) 0 0
     = Ok (mkStat [] [(-0.5)%float]).
Proof. vm_compute. split; reflexivity. Qed.

(** ** The labels of the results *)

Lemma bcast_fst_lengths {A B C A' B' C' : Type}
    (f : A -> B -> C) (g : A' -> B' -> C') da db u v u' v' :
  length u = length u' -> length v = length v' ->
  fst (bcast f da u db v) = fst (bcast g da u' db v').
Proof.
  intros Hu Hv. unfold bcast.
  destruct (dims_eq_dec da db); [reflexivity|].
  destruct da; [|destruct db; [|reflexivity]].
  - destruct u as [|a [|a' u]], u' as [|b [|b' u']]; try discriminate; try reflexivity;
      destruct db; try reflexivity;
      destruct v as [|c [|c' v]], v' as [|d [|d' v']]; try discriminate; reflexivity.
  - destruct v as [|c [|c' v]], v' as [|d [|d' v']]; try discriminate; reflexivity.
Qed.

Lemma bcast_snd_length_same {A B C A' B' C' : Type}
    (f : A -> B -> C) (g : A' -> B' -> C') da db u v u' v' :
  length u = length u' -> length v = length v' ->
  length (snd (bcast f da u db v)) = length (snd (bcast g da u' db v')).
Proof.
  intros Hu Hv. unfold bcast.
  destruct (dims_eq_dec da db); [simpl; rewrite !map2_length; lia|].
  destruct da; [|destruct db].
  - destruct u as [|a [|a' u]], u' as [|b [|b' u']]; try discriminate;
      try (simpl; rewrite !length_map; lia);
      destruct db;
      try (destruct v as [|c [|c' v]], v' as [|d [|d' v']]; try discriminate);
      simpl in *; rewrite ?map2_length, ?length_map; simpl; lia.
  - destruct v as [|c [|c' v]], v' as [|d [|d' v']]; try discriminate;
      simpl in *; rewrite ?map2_length, ?length_map; simpl; lia.
  - simpl. rewrite !map2_length. lia.
Qed.

(** A result of a broadcast absorbs its own left operand. *)
Lemma bcast_absorb_left {A B C A' B' C' : Type}
    (f : A -> B -> C) (g : A' -> B' -> C') da db u v w u' :
  length u' = length u ->
  fst (bcast g (fst (bcast f da u db v)) w da u') = fst (bcast f da u db v).
Proof.
  intros Hu. unfold bcast at 2 3.
  destruct (dims_eq_dec da db) as [->|Hne]; simpl.
  { now rewrite bcast_same. }
  destruct da as [|p da].
  - destruct u as [|a [|a' u]]; simpl.
    + destruct db; [contradiction|]. destruct v as [|c [|c' v]]; now rewrite bcast_same.
    + destruct u' as [|b [|b' u']]; try discriminate.
      unfold bcast. destruct (dims_eq_dec db []) as [->|_]; [contradiction|].
      destruct db; [contradiction|reflexivity].
    + destruct db; [contradiction|]. now rewrite bcast_same.
  - destruct db; [destruct v as [|c [|c' v]]|]; simpl; now rewrite bcast_same.
Qed.

Section Labels.

Context {F : Type} `{Arith F}.

Lemma stat_stat_dims (f : F -> F -> F) (u v : Statistic F) :
  sdims (stat_stat f u v) = fst (bcast f (sdims u) (cell u) (sdims v) (cell v)).
Proof. unfold stat_stat. now destruct (bcast _ _ _ _ _). Qed.

Lemma stat_stat_cell (f : F -> F -> F) (u v : Statistic F) :
  cell (stat_stat f u v) = snd (bcast f (sdims u) (cell u) (sdims v) (cell v)).
Proof. unfold stat_stat. now destruct (bcast _ _ _ _ _). Qed.

Lemma stat_stat_same (f : F -> F -> F) (u v : Statistic F) :
  sdims u = sdims v ->
  stat_stat f u v = mkStat (sdims u) (map2 f (cell u) (cell v)).
Proof. intros Hd. unfold stat_stat. now rewrite <- Hd, bcast_same. Qed.

Lemma da_stat_mean_dims (a : DataArray F) :
  dims (da_stat sub a (mean_time a)) = dims a
  /\ length (series (da_stat sub a (mean_time a))) = length (series a).
Proof. rewrite centred_series. simpl. now rewrite length_map. Qed.

Lemma moments_cov_dims (x y : DataArray F) :
  sdims (moments_cov x y)
  = fst (bcast (map2 mul) (dims x) (series x) (dims y) (series y)).
Proof.
  unfold moments_cov, centred_products, da_da. simpl.
  destruct (da_stat_mean_dims x) as [-> Hx], (da_stat_mean_dims y) as [-> Hy].
  destruct (bcast _ _ _ _ _) eqn:Hb. simpl.
  change d with (fst (d, l)). rewrite <- Hb.
  now apply bcast_fst_lengths.
Qed.

Lemma std_product_dims (x y : DataArray F) :
  sdims (stat_stat mul (std_time x) (std_time y)) = sdims (moments_cov x y).
Proof.
  rewrite stat_stat_dims, moments_cov_dims. simpl.
  apply bcast_fst_lengths; now rewrite length_map.
Qed.

Lemma moments_cor_dims (x y : DataArray F) :
  sdims (moments_cor x y) = sdims (moments_cov x y).
Proof.
  unfold moments_cor. rewrite stat_stat_dims, std_product_dims.
  now rewrite bcast_same.
Qed.

Lemma moments_slope_dims (x y : DataArray F) :
  sdims (moments_slope x y) = sdims (moments_cov x y).
Proof.
  unfold moments_slope. rewrite stat_stat_dims, moments_cov_dims. simpl.
  apply bcast_absorb_left. now rewrite !length_map.
Qed.

Lemma moments_tstats_cells (n : nat) (c : Statistic F) :
  moments_tstats n c = mkStat (sdims c) (map (t_statistic n) (cell c)).
Proof.
  unfold moments_tstats. rewrite stat_stat_same by reflexivity. simpl.
  f_equal. rewrite !map_map, map2_map_l, map2_map_r. apply map2_diag.
Qed.

End Labels.



(** ** Shapes *)

Lemma bdims_same d : bdims d d = d.
Proof. unfold bdims. now destruct (dims_eq_dec d d). Qed.

Lemma bdims_nil_l d : bdims [] d = d.
Proof. unfold bdims. now destruct (dims_eq_dec [] d) as [<-|]. Qed.

Lemma bdims_nil_r d : bdims d [] = d.
Proof. unfold bdims. destruct (dims_eq_dec d []); [reflexivity|now destruct d]. Qed.

Lemma compatible_bdims_l da db :
  compatible da db ->
  compatible (bdims da db) da /\ bdims (bdims da db) da = bdims da db.
Proof.
  intros [->|[->| ->]].
  - rewrite !bdims_same. split; [now left|reflexivity].
  - rewrite bdims_nil_l, bdims_nil_r. split; [right; now right|reflexivity].
  - rewrite bdims_nil_r, bdims_same. split; [now left|reflexivity].
Qed.

Lemma compatible_bdims_r da db :
  compatible da db ->
  compatible db (bdims da db) /\ bdims db (bdims da db) = bdims da db.
Proof.
  intros [->|[->| ->]].
  - rewrite !bdims_same. split; [now left|reflexivity].
  - rewrite bdims_nil_l, bdims_same. split; [now left|reflexivity].
  - rewrite bdims_nil_r, bdims_nil_l. split; [right; now left|reflexivity].
Qed.

Lemma Forall_map2 {A B C : Type} (P : C -> Prop) (f : A -> B -> C) u v :
  (forall a b, In a u -> In b v -> P (f a b)) -> Forall P (map2 f u v).
Proof.
  revert v; induction u as [|a u IH]; intros [|b v] Hf; simpl; constructor.
  - apply Hf; now left.
  - apply IH. intros a' b' Ha Hb. apply Hf; now right.
Qed.

(** Broadcasting compatible operands of the right sizes: the dimensions,
    the number of cells and where the values come from. *)
Lemma bcast_shape {A B C : Type} (f : A -> B -> C) da db u v :
  compatible da db -> length u = ncells da -> length v = ncells db ->
  fst (bcast f da u db v) = bdims da db
  /\ length (snd (bcast f da u db v)) = ncells (bdims da db)
  /\ (forall P : C -> Prop,
        (forall a b, In a u -> In b v -> P (f a b)) ->
        Forall P (snd (bcast f da u db v))).
Proof.
  intros Hc Hu Hv. unfold bcast, bdims.
  destruct (dims_eq_dec da db) as [<-|Hne]; simpl.
  { repeat split; [rewrite map2_length; lia|].
    intros P HP. now apply Forall_map2. }
  destruct Hc as [Heq|[-> | ->]]; [contradiction| |].
  - simpl in Hu. destruct u as [|a [|a' u]]; try discriminate. simpl.
    repeat split; [now rewrite length_map|].
    intros P HP. apply Forall_forall. intros c Hc.
    apply in_map_iff in Hc as (b & <- & Hb). apply HP; [now left|assumption].
  - simpl in Hv. destruct v as [|b [|b' v]]; try discriminate.
    destruct da as [|p da]; [contradiction|]. simpl.
    repeat split; [now rewrite length_map|].
    intros P HP. apply Forall_forall. intros c Hc.
    apply in_map_iff in Hc as (a & <- & Ha). apply HP; [assumption|now left].
Qed.

Section Shapes.

Context {F : Type} `{Arith F}.

Lemma da_stat_shape (f : F -> F -> F) (a : DataArray F) (m : Statistic F) :
  wf a -> stat_wf m -> compatible (dims a) (sdims m) ->
  wf (da_stat f a m)
  /\ dims (da_stat f a m) = bdims (dims a) (sdims m)
  /\ time (da_stat f a m) = time a.
Proof.
  intros [Ha Hl] Hm Hc. unfold da_stat.
  destruct (@bcast_shape _ _ _ (fun ser v => map (fun e => f e v) ser) _ _ _ _ Hc Ha Hm)
    as (Hd & Hn & HP).
  destruct (bcast _ _ _ _ _) as [d s]. simpl in *. subst d.
  repeat split; auto. simpl.
  apply HP. intros ser v Hser _. rewrite length_map.
  rewrite Forall_forall in Hl. now apply Hl.
Qed.

Lemma stat_da_shape (f : F -> F -> F) (m : Statistic F) (a : DataArray F) :
  wf a -> stat_wf m -> compatible (sdims m) (dims a) ->
  wf (stat_da f m a)
  /\ dims (stat_da f m a) = bdims (sdims m) (dims a)
  /\ time (stat_da f m a) = time a.
Proof.
  intros [Ha Hl] Hm Hc. unfold stat_da.
  destruct (@bcast_shape _ _ _ (fun v ser => map (fun e => f v e) ser) _ _ _ _ Hc Hm Ha)
    as (Hd & Hn & HP).
  destruct (bcast _ _ _ _ _) as [d s]. simpl in *. subst d.
  repeat split; auto. simpl.
  apply HP. intros v ser _ Hser. rewrite length_map.
  rewrite Forall_forall in Hl. now apply Hl.
Qed.

Lemma da_da_shape (f : F -> F -> F) (a b : DataArray F) :
  wf a -> wf b -> compatible (dims a) (dims b) ->
  length (time a) = length (time b) ->
  wf (da_da f a b)
  /\ dims (da_da f a b) = bdims (dims a) (dims b)
  /\ time (da_da f a b) = time a.
Proof.
  intros [Ha Hla] [Hb Hlb] Hc Ht. unfold da_da.
  destruct (@bcast_shape _ _ _ (map2 f) _ _ _ _ Hc Ha Hb) as (Hd & Hn & HP).
  destruct (bcast _ _ _ _ _) as [d s]. simpl in *. subst d.
  repeat split; auto. simpl.
  apply HP. intros s1 s2 H1 H2. rewrite map2_length.
  rewrite Forall_forall in Hla, Hlb.
  rewrite (Hla _ H1), (Hlb _ H2). lia.
Qed.

Lemma stat_stat_shape (f : F -> F -> F) (u v : Statistic F) :
  stat_wf u -> stat_wf v -> compatible (sdims u) (sdims v) ->
  stat_wf (stat_stat f u v)
  /\ sdims (stat_stat f u v) = bdims (sdims u) (sdims v).
Proof.
  intros Hu Hv Hc. unfold stat_stat, stat_wf in *.
  destruct (@bcast_shape _ _ _ f _ _ _ _ Hc Hu Hv) as (Hd & Hn & _).
  destruct (bcast _ _ _ _ _) as [d s]. simpl in *. now subst d.
Qed.

Lemma mean_time_shape (a : DataArray F) :
  wf a -> stat_wf (mean_time a) /\ sdims (mean_time a) = dims a.
Proof. intros [Ha _]. unfold stat_wf, mean_time. simpl. now rewrite length_map. Qed.

Lemma std_time_shape (a : DataArray F) :
  wf a -> stat_wf (std_time a) /\ sdims (std_time a) = dims a.
Proof. intros [Ha _]. unfold stat_wf, std_time. simpl. now rewrite length_map. Qed.

Lemma moments_cov_shape (x y : DataArray F) :
  wf x -> wf y -> compatible (dims x) (dims y) ->
  length (time x) = length (time y) ->
  stat_wf (moments_cov x y)
  /\ sdims (moments_cov x y) = bdims (dims x) (dims y).
Proof.
  intros Hx Hy Hc Ht.
  destruct (mean_time_shape Hx) as [Hmx Hdx], (mean_time_shape Hy) as [Hmy Hdy].
  destruct (da_stat_shape sub Hx Hmx) as (Hcx & Hcdx & Hctx);
    [rewrite Hdx; now left|].
  destruct (da_stat_shape sub Hy Hmy) as (Hcy & Hcdy & Hcty);
    [rewrite Hdy; now left|].
  rewrite Hdx, bdims_same in Hcdx. rewrite Hdy, bdims_same in Hcdy.
  destruct (@da_da_shape mul _ _ Hcx Hcy) as ([Hp Hpl] & Hpd & _);
    [now rewrite Hcdx, Hcdy | now rewrite Hctx, Hcty|].
  rewrite Hcdx, Hcdy in Hpd.
  unfold moments_cov, centred_products, stat_wf, stat_map, sum_axis0. simpl.
  rewrite !length_map, Hpd. split; [now rewrite <- Hpd|reflexivity].
Qed.

Lemma moments_slope_shape (x y : DataArray F) :
  wf x -> wf y -> compatible (dims x) (dims y) ->
  length (time x) = length (time y) ->
  stat_wf (moments_slope x y)
  /\ sdims (moments_slope x y) = bdims (dims x) (dims y).
Proof.
  intros Hx Hy Hc Ht.
  destruct (moments_cov_shape Hx Hy Hc Ht) as [Hcov Hcd].
  destruct (std_time_shape Hx) as [Hsx Hsd].
  destruct (compatible_bdims_l Hc) as [Hc' Hb].
  unfold moments_slope.
  destruct (@stat_stat_shape div (moments_cov x y)
              (stat_map (fun s => mul s s) (std_time x))) as [Hw Hd]; auto.
  - unfold stat_wf, stat_map in *. simpl in *. now rewrite length_map.
  - rewrite Hcd. exact Hc'.
  - split; [assumption|]. rewrite Hd, Hcd. exact Hb.
Qed.

Lemma moments_intercept_shape (x y : DataArray F) :
  wf x -> wf y -> compatible (dims x) (dims y) ->
  length (time x) = length (time y) ->
  stat_wf (moments_intercept x y)
  /\ sdims (moments_intercept x y) = bdims (dims x) (dims y).
Proof.
  intros Hx Hy Hc Ht.
  destruct (moments_slope_shape Hx Hy Hc Ht) as [Hs Hsd].
  destruct (mean_time_shape Hx) as [Hmx Hdx], (mean_time_shape Hy) as [Hmy Hdy].
  destruct (compatible_bdims_l Hc) as [Hcl Hbl].
  destruct (compatible_bdims_r Hc) as [Hcr Hbr].
  assert (Hcx : compatible (dims x) (bdims (dims x) (dims y))).
  { destruct Hcl as [E|[E|E]]; [left; now rewrite E|right; now right|right; now left]. }
  assert (Hbx : bdims (dims x) (bdims (dims x) (dims y)) = bdims (dims x) (dims y)).
  { destruct Hc as [E|[E|E]].
    - now rewrite <- E, !bdims_same.
    - now rewrite E, !bdims_nil_l.
    - now rewrite E, !bdims_nil_r, bdims_same. }
  unfold moments_intercept.
  destruct (@stat_stat_shape mul (mean_time x) (moments_slope x y)) as [Hw Hd]; auto.
  { now rewrite Hdx, Hsd. }
  rewrite Hdx, Hsd, Hbx in Hd.
  destruct (@stat_stat_shape sub (mean_time y)
              (stat_stat mul (mean_time x) (moments_slope x y))) as [Hw' Hd']; auto.
  { now rewrite Hdy, Hd. }
  split; [assumption|]. now rewrite Hd', Hdy, Hd.
Qed.

End Shapes.

(** ** Lagging and aligning *)

Lemma keep_length_eq {A B : Type} (mask : list bool) (l1 : list A) (l2 : list B) :
  length l1 = length mask -> length l2 = length mask ->
  length (keep mask l1) = length (keep mask l2).
Proof.
  unfold keep. revert l1 l2.
  induction mask as [|b mask IH]; intros [|a l1] [|a' l2]; simpl;
    try discriminate; auto.
  intros H1 H2. destruct b; simpl; auto.
Qed.

Lemma keep_subset {A : Type} (mask : list bool) (l : list A) (a : A) :
  In a (keep mask l) -> In a l.
Proof.
  unfold keep. revert l.
  induction mask as [|b mask IH]; intros [|a' l]; simpl; try tauto.
  destruct b; simpl; [intros [->|Hin]; [now left|right; auto] | right; auto].
Qed.

Lemma keep_none {A : Type} (n : nat) (l : list A) :
  keep (repeat false n) l = [].
Proof.
  unfold keep. revert l.
  induction n as [|n IH]; intros [|a l]; simpl; auto.
Qed.

Lemma map_seq_false (f : nat -> bool) (k : nat) :
  (forall i, (i < k)%nat -> f i = false) -> map f (seq 0 k) = repeat false k.
Proof.
  intros Hf. induction k as [|k IH]; [reflexivity|].
  rewrite seq_S, map_app, IH by (intros; apply Hf; lia).
  simpl map. rewrite Hf by lia.
  replace (S k) with (k + 1)%nat by lia.
  now rewrite repeat_app.
Qed.

Lemma filter_none {A : Type} (f : A -> bool) (l : list A) :
  (forall a, In a l -> f a = false) -> filter f l = [].
Proof.
  induction l as [|a l IH]; simpl; intros Hf; [reflexivity|].
  rewrite Hf by now left. apply IH. intros; apply Hf; now right.
Qed.

Lemma map2_all_nil {A C : Type} (g : list A -> list A -> C) (u v : list (list A)) :
  Forall (eq []) u -> Forall (eq []) v ->
  map2 g u v = repeat (g [] []) (Nat.min (length u) (length v)).
Proof.
  intros Hu. revert v. induction Hu as [|a u <- _ IH]; intros v Hv; [reflexivity|].
  destruct Hv as [|b v <- Hv]; [reflexivity|].
  simpl. f_equal. now apply IH.
Qed.

Lemma keep_NoDup {A : Type} (mask : list bool) (l : list A) :
  NoDup l -> NoDup (keep mask l).
Proof.
  revert mask. induction l as [|a l IH]; intros [|b mask] Hl;
    try (unfold keep; simpl; constructor).
  inversion Hl as [|? ? Hnin Hnd]; subst.
  specialize (IH mask Hnd).
  destruct b; unfold keep in *; simpl; [|exact IH].
  constructor; [|exact IH].
  intros Hin. apply Hnin. now apply (@keep_subset A mask l a).
Qed.

Lemma mem_In (t : Z) (l : list Z) : mem t l = true <-> In t l.
Proof.
  unfold mem. rewrite existsb_exists. split.
  - intros (t' & Hin & Ht). apply Z.eqb_eq in Ht. now subst.
  - intros Hin. exists t. split; [assumption|apply Z.eqb_refl].
Qed.

Lemma is_unique_NoDup (l : list Z) : NoDup l -> is_unique l = true.
Proof.
  induction 1 as [|t l Hnin _ IH]; [reflexivity|]. simpl.
  rewrite IH, andb_true_r. apply negb_true_iff.
  destruct (mem t l) eqn:E; [|reflexivity].
  apply mem_In in E. contradiction.
Qed.

Section NoOverlap.

Context {F : Type} `{Arith F}.

Lemma shift_list_length (k : Z) (l : list F) :
  length (shift_list k l) = length l.
Proof.
  unfold shift_list. destruct (0 <=? k)%Z.
  - rewrite length_firstn, length_app, repeat_length. lia.
  - rewrite length_app, length_skipn, repeat_length. lia.
Qed.

Lemma lagged_wf (a : DataArray F) (lag : Z) : wf a -> wf (lagged a lag).
Proof.
  intros [Ha Hl]. unfold lagged.
  destruct (negb (lag =? 0)%Z); [|now split].
  split; simpl; [now rewrite !length_map|].
  rewrite map_map. apply Forall_map.
  eapply Forall_impl; [|exact Hl]. intros s Hs. simpl in *.
  apply keep_length_eq.
  - now rewrite shift_list_length, length_map, length_seq.
  - now rewrite length_map, length_seq.
Qed.

Lemma lagged_time_subset (a : DataArray F) (lag : Z) (t : Z) :
  In t (time (lagged a lag)) -> In t (time a).
Proof.
  unfold lagged. destruct (negb (lag =? 0)%Z); [|auto].
  simpl. apply keep_subset.
Qed.

Lemma wf_no_time (a : DataArray F) :
  wf a -> time a = [] -> Forall (eq []) (series a).
Proof.
  intros [_ Hl] Ht. eapply Forall_impl; [|exact Hl].
  intros s Hs. simpl in Hs. rewrite Ht in Hs. now destruct s.
Qed.

Lemma lagged_shape (a : DataArray F) lag :
  dims (lagged a lag) = dims a
  /\ length (series (lagged a lag)) = length (series a).
Proof.
  unfold lagged. destruct (negb (lag =? 0)%Z); simpl; [|auto].
  now rewrite !length_map.
Qed.

Lemma lagged_NoDup (a : DataArray F) (lag : Z) :
  NoDup (time a) -> NoDup (time (lagged a lag)).
Proof.
  unfold lagged. destruct (negb (lag =? 0)%Z); [|auto].
  simpl. apply keep_NoDup.
Qed.

Lemma reindex_wf (a : DataArray F) (labels : list Z) :
  wf a -> wf (reindex a labels).
Proof.
  intros [Ha _]. split; simpl; [now rewrite length_map|].
  apply Forall_map, Forall_forall. intros s _. simpl. now rewrite length_map.
Qed.

(** What the alignment returns, when it returns. *)
Lemma align_ok (x y x' y' : DataArray F) :
  align x y = Ok (x', y') ->
  compatible (dims x) (dims y)
  /\ (dims x' = dims x /\ length (series x') = length (series x))
  /\ (dims y' = dims y /\ length (series y') = length (series y))
  /\ time x' = time y'
  /\ (wf x -> wf x') /\ (wf y -> wf y').
Proof.
  unfold align.
  destruct (compatibleb (dims x) (dims y)) eqn:Hc; cbn [negb]; [|discriminate].
  apply compatibleb_spec in Hc.
  destruct (list_eq_dec Z.eq_dec (time x) (time y)) as [Ht|Ht].
  - intros [= <- <-]. conjuncts; auto.
  - destruct (is_unique (time x) && is_unique (time y))%bool; [|discriminate].
    intros [= <- <-]. simpl. rewrite !length_map.
    conjuncts; auto using reindex_wf.
Qed.

Lemma prepared_ok (x y x' y' : DataArray F) lagx lagy :
  prepared x y lagx lagy = Ok (x', y') ->
  compatible (dims x) (dims y)
  /\ (dims x' = dims x /\ length (series x') = length (series x))
  /\ (dims y' = dims y /\ length (series y') = length (series y))
  /\ time x' = time y'
  /\ (wf x -> wf x') /\ (wf y -> wf y').
Proof.
  unfold prepared. intros Ha.
  destruct (align_ok _ _ Ha) as (Hc & [Hdx Hlx] & [Hdy Hly] & Ht & Hwx & Hwy).
  destruct (lagged_shape x lagx) as [Hdx' Hlx'], (lagged_shape y lagy) as [Hdy' Hly'].
  rewrite Hdx', Hdy' in *. rewrite Hlx' in Hlx. rewrite Hly' in Hly.
  conjuncts; auto using lagged_wf.
Qed.

(** Aligning two arrays with unique time labels that share none leaves no
    time position. *)
Lemma align_disjoint (x y : DataArray F) :
  wf x -> wf y -> compatible (dims x) (dims y) ->
  NoDup (time x) -> NoDup (time y) ->
  (forall t, In t (time x) -> In t (time y) -> False) ->
  exists x' y',
    align x y = Ok (x', y')
    /\ time x' = []
    /\ Forall (eq []) (series x') /\ Forall (eq []) (series y').
Proof.
  intros Hx Hy Hc Hux Huy Hdis. unfold align.
  apply compatibleb_spec in Hc. rewrite Hc. cbn [negb].
  destruct (list_eq_dec Z.eq_dec (time x) (time y)) as [Heq|Hne].
  - assert (Hnil : time x = []).
    { destruct (time x) as [|t ts] eqn:E; [reflexivity|].
      exfalso. apply (Hdis t); [now left | rewrite <- Heq; now left]. }
    exists x, y. repeat split; auto using wf_no_time.
    apply wf_no_time; congruence.
  - rewrite (is_unique_NoDup Hux), (is_unique_NoDup Huy). cbn [andb].
    assert (Hj : filter (fun t => mem t (time y)) (time x) = []).
    { apply filter_none. intros t Ht. unfold mem.
      apply existsb_none. intros t' Ht'.
      destruct (Z.eqb_spec t t') as [->|]; [|reflexivity].
      exfalso. now apply (Hdis t'). }
    rewrite Hj. eexists _, _. split; [reflexivity|]. unfold reindex. simpl.
    repeat split; apply Forall_map, Forall_forall; reflexivity.
Qed.

(** On arrays without a time position, every statistic of a cell is the
    statistic of two empty series. *)
Lemma moments_no_time (x y : DataArray F) :
  dims x = dims y -> time x = [] ->
  Forall (eq []) (series x) -> Forall (eq []) (series y) ->
  let k := Nat.min (length (series x)) (length (series y)) in
  moments_cov x y = mkStat (dims x) (repeat (cell_cov 0 [] []) k)
  /\ moments_cor x y = mkStat (dims x) (repeat (cell_cor 0 [] []) k)
  /\ moments_slope x y = mkStat (dims x) (repeat (cell_slope 0 [] []) k)
  /\ moments_intercept x y = mkStat (dims x) (repeat (cell_intercept 0 [] []) k).
Proof.
  intros Hd Ht Hx Hy k.
  rewrite moments_cov_cells, moments_cor_cells, moments_slope_cells,
    moments_intercept_cells by assumption.
  rewrite Ht. simpl length.
  now rewrite !map2_all_nil by assumption.
Qed.

End NoOverlap.

Lemma nth_repeat_same {A : Type} (a : A) (n i : nat) : nth i (repeat a n) a = a.
Proof.
  revert i; induction n as [|n IH]; intros [|i]; simpl; auto.
Qed.

Section LongLag.

Context {F : Type} `{Arith F}.
Hypothesis isnan_nan : isnan nan = true.

(** A shift by at least the length of the series leaves only NaN. *)
Lemma shift_list_far (k : Z) (l : list F) :
  (Z.of_nat (length l) <= Z.abs k)%Z ->
  shift_list k l = repeat nan (length l).
Proof.
  intros Hk. unfold shift_list.
  destruct (0 <=? k)%Z eqn:E.
  - apply Z.leb_le in E.
    replace (Z.to_nat k) with (length l + (Z.to_nat k - length l))%nat by lia.
    rewrite repeat_app, <- app_assoc.
    rewrite <- (repeat_length nan (length l)) at 1.
    rewrite <- (Nat.add_0_r (length (repeat nan (length l)))).
    rewrite firstn_app_2. simpl. now rewrite app_nil_r.
  - apply Z.leb_gt in E.
    rewrite skipn_all2 by lia. simpl. f_equal. lia.
Qed.

Lemma lagged_far_no_time (a : DataArray F) (lag : Z) :
  wf a -> (Z.of_nat (length (time a)) <= Z.abs lag)%Z ->
  time (lagged a lag) = [].
Proof.
  intros [_ Hl] Hlag. unfold lagged.
  destruct (lag =? 0)%Z eqn:E; simpl.
  - apply Z.eqb_eq in E. subst lag. simpl in Hlag.
    destruct (time a); [reflexivity|simpl in Hlag; lia].
  - rewrite map_seq_false; [apply keep_none|].
    intros i Hi. unfold valid_at, shift. simpl. rewrite existsb_map.
    apply existsb_none. intros s Hs.
    rewrite Forall_forall in Hl. specialize (Hl s Hs).
    rewrite shift_list_far by (rewrite Hl; lia).
    rewrite nth_repeat_same. unfold notnan. now rewrite isnan_nan.
Qed.

End LongLag.

(** ** The combined routine: labels and significance *)

Section SharedLabels.

Context {F : Type} `{Arith F}.
Variable t_sf : F -> Z -> F.


(** The significance lines, on the arrays the alignment returned. *)
Lemma moments_all_significance (x y : DataArray F) :
  let r := moments_all t_sf x y in
  let n := length (time x) in
  cell (lr_pval r) = map (p_value t_sf n) (cell (lr_cor r))
  /\ cell (lr_stderr r)
     = map2 (fun s c => std_error n c s) (cell (lr_slope r)) (cell (lr_cor r))
  /\ sdims (lr_pval r) = sdims (lr_cor r)
  /\ sdims (lr_stderr r) = sdims (lr_cor r).
Proof.
  unfold moments_all.
  cbv zeta. cbn [lr_pval lr_cor lr_slope lr_stderr].
  rewrite moments_tstats_cells.
  assert (Hs : sdims (moments_slope x y) = sdims (moments_cor x y))
    by now rewrite moments_slope_dims, moments_cor_dims.
  generalize dependent (moments_slope x y).
  generalize (moments_cor x y).
  generalize (length (time x)).
  intros n co sl Hs.
  rewrite stat_stat_same by exact Hs.
  cbn [cell sdims].
  split; [|split; [|split]].
  - rewrite !map_map. reflexivity.
  - rewrite map2_map_r. reflexivity.
  - reflexivity.
  - exact Hs.
Qed.


(** What [linregress_ND] returns, when it returns. *)
Lemma linregress_ND_ok (x y : DataArray F) lagx lagy r :
  linregress_ND t_sf x y lagx lagy = Ok r ->
  exists x' y',
    prepared x y lagx lagy = Ok (x', y') /\ r = moments_all t_sf x' y'.
Proof.
  rewrite linregress_ND_prepared.
  destruct (prepared x y lagx lagy) as [[x' y']|e|]; try discriminate.
  intros [= <-]. now exists x', y'.
Qed.

(** X4.  From the correlation c and the slope s of a cell and the number n
    of time positions the alignment left, [linregress_ND] computes the
    t-statistic c*sqrt(n-2)/sqrt(1-c^2), the standard error s/t and the
    p-value 2*sf(|t|, n-2), sf the survival function (1 - CDF) of Student's
    t distribution; all under the labels of the correlation. *)
Lemma linregress_ND_significance (x y : DataArray F) lagx lagy r :
  linregress_ND t_sf x y lagx lagy = Ok r ->
  exists x' y',
    prepared x y lagx lagy = Ok (x', y')
    /\ cell (lr_pval r) = map (p_value t_sf (length (time x'))) (cell (lr_cor r))
    /\ cell (lr_stderr r)
       = map2 (fun s c => std_error (length (time x')) c s)
              (cell (lr_slope r)) (cell (lr_cor r))
    /\ sdims (lr_pval r) = sdims (lr_cor r)
    /\ sdims (lr_stderr r) = sdims (lr_cor r).
Proof.
  intros Hr. destruct (linregress_ND_ok _ _ _ _ Hr) as (x' & y' & Hp & ->).
  exists x', y'. split; [exact Hp|]. apply moments_all_significance.
Qed.


(** X1.  For every pair of lags, the first four results of [linregress_ND] are
    the results of [cov], [cor] and [reg] called with the same lags: the
    combined routine repeats their computation step by step, and raises
    where they raise. *)
Theorem linregress_ND_components (x y : DataArray F) (lagx lagy : Z) :
  rmap lr_cov (linregress_ND t_sf x y lagx lagy) = cov x y lagx lagy
  /\ rmap lr_cor (linregress_ND t_sf x y lagx lagy) = cor x y lagx lagy
  /\ rmap (fun r => (lr_slope r, lr_intercept r))
          (linregress_ND t_sf x y lagx lagy) = reg x y lagx lagy.
Proof.
  rewrite linregress_ND_prepared, cov_prepared, cor_prepared, reg_prepared.
  rewrite !rmap_rmap. unfold moments_all.
  cbv zeta. cbn [lr_cov lr_cor lr_slope lr_intercept]. repeat split.
Qed.

End SharedLabels.

Lemma linregress_ND_significance_witness :
  exists x' y',
    @prepared float b64 (da1 [1; 2; 4]%float) (da1 [3; 5; 10]%float) 0 0
    = Ok (x', y')
    /\ cell (lr_pval (@moments_all float b64 (fun _ _ => 0.5%float)
                        (da1 [1; 2; 4]%float) (da1 [3; 5; 10]%float)))
       = map (@p_value float b64 (fun _ _ => 0.5%float) (length (time x')))
             (cell (lr_cor (@moments_all float b64 (fun _ _ => 0.5%float)
                              (da1 [1; 2; 4]%float) (da1 [3; 5; 10]%float))))
    /\ cell (lr_stderr (@moments_all float b64 (fun _ _ => 0.5%float)
                          (da1 [1; 2; 4]%float) (da1 [3; 5; 10]%float)))
       = map2 (fun s c => @std_error float b64 (length (time x')) c s)
              (cell (lr_slope (@moments_all float b64 (fun _ _ => 0.5%float)
                                 (da1 [1; 2; 4]%float) (da1 [3; 5; 10]%float))))
              (cell (lr_cor (@moments_all float b64 (fun _ _ => 0.5%float)
                               (da1 [1; 2; 4]%float) (da1 [3; 5; 10]%float))))
    /\ sdims (lr_pval (@moments_all float b64 (fun _ _ => 0.5%float)
                         (da1 [1; 2; 4]%float) (da1 [3; 5; 10]%float)))
       = sdims (lr_cor (@moments_all float b64 (fun _ _ => 0.5%float)
                          (da1 [1; 2; 4]%float) (da1 [3; 5; 10]%float)))
    /\ sdims (lr_stderr (@moments_all float b64 (fun _ _ => 0.5%float)
                           (da1 [1; 2; 4]%float) (da1 [3; 5; 10]%float)))
       = sdims (lr_cor (@moments_all float b64 (fun _ _ => 0.5%float)
                          (da1 [1; 2; 4]%float) (da1 [3; 5; 10]%float))).
Proof.
  apply (@linregress_ND_significance float b64 (fun _ _ => 0.5%float)
           (da1 [1; 2; 4]%float) (da1 [3; 5; 10]%float) 0 0).
  reflexivity.
Defined.


(** ** Correlation and regression at work on binary64 data *)

Lemma cor_numbers_witness :
  @cor float b64 (da1 [1; 2; 4]%float) (da1 [3; 5; 10]%float) 0 0
  = Ok (mkStat [] [@pop_cor float b64 [1; 2; 4]%float [3; 5; 10]%float]).
Proof.
  apply (@cor_numbers float b64 (da1 [1; 2; 4]%float) (da1 [3; 5; 10]%float)).
  - reflexivity.
  - reflexivity.
  - split; [reflexivity | repeat constructor].
  - repeat constructor.
  - repeat constructor.
  - vm_compute. repeat constructor.
Defined.

Lemma reg_numbers_witness :
  @reg float b64 (da1 [1; 2; 4]%float) (da1 [3; 5; 10]%float) 0 0
  = Ok (mkStat [] [@ols_slope float b64 [1; 2; 4]%float [3; 5; 10]%float],
        mkStat [] [@ols_intercept float b64 [1; 2; 4]%float [3; 5; 10]%float]).
Proof.
  apply (@reg_numbers float b64 (da1 [1; 2; 4]%float) (da1 [3; 5; 10]%float)).
  - reflexivity.
  - reflexivity.
  - split; [reflexivity | repeat constructor].
  - repeat constructor.
  - repeat constructor.
  - vm_compute. repeat constructor.
Defined.





(** ** Detrending *)

Lemma bcast_scalar_cells_l {A B C : Type} (f : A -> B -> C) (a : A) d v :
  length v = ncells d -> bcast f [] [a] d v = (d, map (f a) v).
Proof.
  intros Hv. unfold bcast. destruct (dims_eq_dec [] d) as [<-|Hne].
  - simpl in Hv. destruct v as [|b [|b' v]]; try discriminate. reflexivity.
  - reflexivity.
Qed.

Lemma bcast_scalar_cells_r {A B C : Type} (f : A -> B -> C) (b : B) d u :
  length u = ncells d -> bcast f d u [] [b] = (d, map (fun a => f a b) u).
Proof.
  intros Hu. unfold bcast. destruct (dims_eq_dec d []) as [->|Hne].
  - simpl in Hu. destruct u as [|a [|a' u]]; try discriminate. reflexivity.
  - destruct d as [|p d]; [contradiction|]. reflexivity.
Qed.

Section ScalarIndex.

Context {F : Type} `{Arith F}.

(** The regression lines when x has the time dimension only: its one
    series is paired with every cell of y. *)
Lemma moments_cov_scalar_x (x y : DataArray F) (xs : list F) :
  dims x = [] -> series x = [xs] -> length (series y) = ncells (dims y) ->
  moments_cov x y
  = mkStat (dims y) (map (cell_cov (length (time x)) xs) (series y)).
Proof.
  intros Hd Hs Hy. unfold moments_cov, centred_products.
  rewrite !centred_series. unfold da_da. cbn [dims series time].
  rewrite Hd, Hs. cbn [map].
  rewrite bcast_scalar_cells_l by now rewrite length_map.
  unfold stat_map, sum_axis0. cbn [dims series sdims cell]. f_equal.
  rewrite !map_map. apply map_ext. intros ys. reflexivity.
Qed.

Lemma moments_slope_scalar_x (x y : DataArray F) (xs : list F) :
  dims x = [] -> series x = [xs] -> length (series y) = ncells (dims y) ->
  moments_slope x y
  = mkStat (dims y) (map (cell_slope (length (time x)) xs) (series y)).
Proof.
  intros Hd Hs Hy. unfold moments_slope.
  rewrite (moments_cov_scalar_x x y Hd Hs Hy).
  unfold stat_stat, stat_map, std_time. cbn [sdims cell]. rewrite Hd, Hs. cbn [map].
  rewrite bcast_scalar_cells_r by now rewrite length_map.
  f_equal. rewrite map_map. reflexivity.
Qed.

Lemma moments_intercept_scalar_x (x y : DataArray F) (xs : list F) :
  dims x = [] -> series x = [xs] -> length (series y) = ncells (dims y) ->
  moments_intercept x y
  = mkStat (dims y) (map (cell_intercept (length (time x)) xs) (series y)).
Proof.
  intros Hd Hs Hy. unfold moments_intercept.
  rewrite (moments_slope_scalar_x x y Hd Hs Hy).
  unfold stat_stat, mean_time. cbn [sdims cell]. rewrite Hd, Hs. cbn [map].
  rewrite bcast_scalar_cells_l by now rewrite length_map.
  cbn [fst snd]. rewrite bcast_same. f_equal. cbn [cell].
  rewrite map_map, map2_map_l, map2_map_r, map2_diag. reflexivity.
Qed.

End ScalarIndex.

Section Detrend.

Context {F : Type} `{Arith F}.
Variable window_error : Z -> nat -> dimsT -> option exn.

(** X7.  [detrend_ND_xr] raises ValueError for every window that is not
    positive, whatever the array: the rolling window is built first and
    xarray refuses it.  The default window, 0, is one of them. *)
Theorem detrend_ND_xr_window_not_positive (y : DataArray F) (w : Z) :
  (w <= 0)%Z -> detrend_ND_xr window_error y w = Raise ValueError.
Proof.
  intros Hw. unfold detrend_ND_xr, rolling_mean.
  destruct (w <=? 0)%Z eqn:E; [reflexivity|].
  apply Z.leb_gt in E. lia.
Qed.

(** C2 (what the code does instead).  With the default window, 0,
    [detrend_ND_xr] returns nothing: it raises ValueError, for every y, a
    linear trend included. *)
Theorem detrend_ND_xr_default_window_raises (y : DataArray F) :
  detrend_ND_xr window_error y 0 = Raise ValueError.
Proof. reflexivity. Qed.

Lemma moving_mean_length (w : nat) (s : list F) :
  length (moving_mean w s) = length s.
Proof. unfold moving_mean. now rewrite length_map, length_seq. Qed.

Lemma index_array_wf (y : DataArray F) : wf (index_array y).
Proof.
  split; [reflexivity|]. simpl. constructor; [|constructor].
  now rewrite length_map, length_seq.
Qed.

Lemma rolled_wf (y : DataArray F) (w : Z) : wf y -> wf (rolled y w).
Proof.
  intros [Hy Hl]. split; simpl; [now rewrite length_map|].
  apply Forall_map. eapply Forall_impl; [|exact Hl].
  intros s Hs. simpl. now rewrite moving_mean_length.
Qed.

Lemma rolling_mean_ok (y yd : DataArray F) (w : Z) :
  rolling_mean window_error y w = Ok yd ->
  (0 < w)%Z /\ window_error w (length (time y)) (dims y) = None
  /\ yd = rolled y w.
Proof.
  unfold rolling_mean.
  destruct (w <=? 0)%Z eqn:E; [discriminate|]. apply Z.leb_gt in E.
  destruct (window_error w (length (time y)) (dims y)); [discriminate|].
  intros [= <-]. auto.
Qed.

Lemma rolling_mean_positive (y : DataArray F) (w : Z) :
  (0 < w)%Z -> window_error w (length (time y)) (dims y) = None ->
  rolling_mean window_error y w = Ok (rolled y w).
Proof.
  intros Hw He. unfold rolling_mean. rewrite He.
  destruct (w <=? 0)%Z eqn:E; [|reflexivity].
  apply Z.leb_le in E. lia.
Qed.

Lemma detrend_after_rolling (y yd : DataArray F) :
  time yd = time y ->
  bind (reg (index_array y) yd 0 0)
       (fun '(slope, intercept) =>
          Ok (da_stat add
                (da_da sub y
                   (da_stat add (stat_da mul slope (index_array y)) intercept))
                (mean_all y)))
  = Ok (detrend_lines y yd).
Proof.
  intros Ht.
  rewrite reg_unlagged by (try (right; now left); now rewrite Ht).
  reflexivity.
Qed.

(** What [detrend_ND_xr] returns for a window that is built. *)
Lemma detrend_ND_xr_positive (y : DataArray F) (w : Z) :
  (0 < w)%Z -> window_error w (length (time y)) (dims y) = None ->
  detrend_ND_xr window_error y w = Ok (detrend_lines y (rolled y w)).
Proof.
  intros Hw He. unfold detrend_ND_xr.
  rewrite rolling_mean_positive by assumption. cbn [bind].
  now apply detrend_after_rolling.
Qed.

(** What [detrend_ND_xr] returns, when it returns. *)
Lemma detrend_ND_xr_ok (y det : DataArray F) (w : Z) :
  detrend_ND_xr window_error y w = Ok det ->
  (0 < w)%Z /\ window_error w (length (time y)) (dims y) = None
  /\ det = detrend_lines y (rolled y w).
Proof.
  intros Hd.
  destruct (rolling_mean window_error y w) as [yd|e|] eqn:Hr;
    unfold detrend_ND_xr in Hd; rewrite Hr in Hd; cbn [bind] in Hd;
    try discriminate.
  destruct (rolling_mean_ok _ _ Hr) as (Hw & He & ->).
  assert (E : Ok det = Ok (detrend_lines y (rolled y w))).
  { rewrite <- Hd. now apply detrend_after_rolling. }
  injection E as ->. auto.
Qed.

Lemma detrend_lines_shape (y yd : DataArray F) :
  wf y -> wf yd -> dims yd = dims y -> time yd = time y ->
  dims (detrend_lines y yd) = dims y
  /\ time (detrend_lines y yd) = time y
  /\ wf (detrend_lines y yd).
Proof.
  intros Hy Hyd Hdd Htd. unfold detrend_lines. cbv zeta.
  set (x := index_array y).
  pose proof (index_array_wf y) as Hx. fold x in Hx.
  assert (Hc : compatible (dims x) (dims yd)) by (right; now left).
  assert (Ht : length (time x) = length (time yd)) by now rewrite Htd.
  destruct (moments_slope_shape Hx Hyd Hc Ht) as [Hs Hsd].
  destruct (moments_intercept_shape Hx Hyd Hc Ht) as [Hi Hid].
  change (dims x) with (@nil (string * list Z)) in Hsd, Hid.
  rewrite bdims_nil_l, Hdd in Hsd, Hid.
  destruct (stat_da_shape mul Hx Hs) as (Ht1 & Hd1 & Htm1);
    [right; now right|].
  rewrite Hsd in Hd1. change (dims x) with (@nil (string * list Z)) in Hd1.
  rewrite bdims_nil_r in Hd1.
  destruct (da_stat_shape add Ht1 Hi) as (Ht2 & Hd2 & Htm2);
    [rewrite Hd1, Hid; now left|].
  rewrite Hd1, Hid, bdims_same in Hd2. rewrite Htm1 in Htm2.
  destruct (da_da_shape sub Hy Ht2) as (Ht3 & Hd3 & Htm3);
    [rewrite Hd2; now left | now rewrite Htm2|].
  rewrite Hd2, bdims_same in Hd3.
  destruct (da_stat_shape add (m := mean_all y) Ht3) as (Ht4 & Hd4 & Htm4);
    [reflexivity | right; now right|].
  rewrite Hd3 in Hd4. change (sdims (mean_all y)) with (@nil (string * list Z)) in Hd4.
  rewrite bdims_nil_r in Hd4.
  conjuncts; try assumption.
  now rewrite Htm4.
Qed.

(** X8.  For every well-shaped y: whenever [detrend_ND_xr] returns, the
    array it returns has the dimensions and labels of y and the whole time
    axis of y, one value for each value of y (the ends are not trimmed);
    and it does return when the window is positive and the library builds
    it. *)
Theorem detrend_ND_xr_shape (y : DataArray F) (w : Z) :
  wf y ->
  (forall det, detrend_ND_xr window_error y w = Ok det ->
               dims det = dims y /\ time det = time y /\ wf det)
  /\ ((0 < w)%Z -> window_error w (length (time y)) (dims y) = None ->
      exists det, detrend_ND_xr window_error y w = Ok det).
Proof.
  intros Hy. split.
  - intros det Hd. destruct (detrend_ND_xr_ok _ _ Hd) as (_ & _ & ->).
    apply detrend_lines_shape; auto using rolled_wf.
  - intros Hw He. eexists. now apply detrend_ND_xr_positive.
Qed.

(** C3 (what the code does instead).  Whenever [detrend_ND_xr] returns for
    a well-shaped y, the line it subtracts has, in every cell, the slope
    and the intercept that the lines of [reg] give for the index
    0, 1, ..., n-1 and the smoothed series over the whole time axis: the
    sums skip the positions where the moving average is undefined, and the
    covariance is divided by n, the number of all time positions of y, the
    standard deviation of the index also being the one over all n
    positions.  No position is dropped, and the array returned has the
    dimensions and the whole time axis of y. *)
Theorem detrend_ND_xr_fit_counts_all_positions (y det : DataArray F) (w : Z) :
  wf y -> detrend_ND_xr window_error y w = Ok det ->
  let n := length (time y) in
  let idx := map (fun i => of_nat i) (seq 0 n) in
  let smooth := moving_mean (Z.to_nat w) in
  let slope :=
    mkStat (dims y) (map (fun s => cell_slope n idx (smooth s)) (series y)) in
  let intercept :=
    mkStat (dims y) (map (fun s => cell_intercept n idx (smooth s)) (series y)) in
  det = da_stat add
          (da_da sub y (da_stat add (stat_da mul slope (index_array y)) intercept))
          (mean_all y)
  /\ dims det = dims y /\ time det = time y /\ wf det.
Proof.
  intros Hy Hd n idx smooth slope intercept.
  destruct (detrend_ND_xr_ok _ _ Hd) as (_ & _ & ->).
  split; [|apply detrend_lines_shape; auto using rolled_wf].
  unfold detrend_lines. cbv zeta.
  assert (Hl : length (series (rolled y w)) = ncells (dims (rolled y w))).
  { apply rolled_wf, Hy. }
  rewrite (@moments_slope_scalar_x _ _ (index_array y) (rolled y w) idx eq_refl eq_refl Hl).
  rewrite (@moments_intercept_scalar_x _ _ (index_array y) (rolled y w) idx eq_refl eq_refl Hl).
  unfold slope, intercept, rolled. cbn [dims series time index_array].
  rewrite !map_map. reflexivity.
Qed.

End Detrend.

Lemma detrend_ND_xr_window_not_positive_witness :
  @detrend_ND_xr float b64 no_window_error (da1 [1; 2; 3]%float) 0
  = Raise ValueError.
Proof.
  apply (@detrend_ND_xr_window_not_positive float b64). lia.
Defined.

Lemma detrend_ND_xr_shape_witness :
  exists det,
    @detrend_ND_xr float b64 no_window_error (da1 [0; 1; 2; 3; 4]%float) 3 = Ok det
    /\ dims det = [] /\ time det = [0; 1; 2; 3; 4]%Z /\ wf det.
Proof.
  destruct (@detrend_ND_xr_shape float b64 no_window_error
              (da1 [0; 1; 2; 3; 4]%float) 3) as [Hshape Hreturns].
  - split; [reflexivity | repeat constructor].
  - destruct Hreturns as [det Hdet]; [lia | reflexivity |].
    exists det. split; [exact Hdet | exact (Hshape det Hdet)].
Defined.

Lemma detrend_ND_xr_fit_counts_all_positions_witness :
  let y := da1 [0; 1; 2; 3; 4]%float in
  let det := @detrend_lines float b64 y (@rolled float b64 y 3) in
  let idx := [0; 1; 2; 3; 4]%float in
  let smooth := @moving_mean float b64 3 in
  det = da_stat PrimFloat.add
          (da_da PrimFloat.sub y
             (da_stat PrimFloat.add
                (stat_da PrimFloat.mul
                   (mkStat [] [@cell_slope float b64 5 idx (smooth [0; 1; 2; 3; 4]%float)])
                   (@index_array float b64 y))
                (mkStat [] [@cell_intercept float b64 5 idx (smooth [0; 1; 2; 3; 4]%float)])))
          (@mean_all float b64 y)
  /\ dims det = [] /\ time det = [0; 1; 2; 3; 4]%Z /\ wf det.
Proof.
  intros y det idx smooth.
  apply (@detrend_ND_xr_fit_counts_all_positions float b64 no_window_error y det 3).
  - split; [reflexivity | repeat constructor].
  - reflexivity.
Defined.

(** C3, as the specification words it, fails: the positions where the
    moving average is undefined are not excluded from the fit.  For the
    trend y = [0, 1, 2, 3, 4] and the window 3 the smoothed series is
    [NaN, 1, 2, 3, NaN]; [reg] on the index and this series gives the slope
    0.19999999999999996 (the sum of the three products divided by 5, over
    the variance of all five indexes), where the fit on the three positions
    left after dropping the undefined ones gives the slope 1; so what
    [detrend_ND_xr] returns still rises by 0.8 a step. *)
Lemma detrend_ND_xr_fit_keeps_undefined_positions :
  @rolling_mean float b64 no_window_error (da1 [0; 1; 2; 3; 4]%float) 3
  = Ok (mkDA [] [0; 1; 2; 3; 4]%Z [[PrimFloat.nan; 1; 2; 3; PrimFloat.nan]%float])
  /\ @reg float b64 (@index_array float b64 (da1 [0; 1; 2; 3; 4]%float))
          (mkDA [] [0; 1; 2; 3; 4]%Z [[PrimFloat.nan; 1; 2; 3; PrimFloat.nan]%float])
          0 0
     = Ok (mkStat [] [0.19999999999999996%float], mkStat [] [1.6000000000000001%float])
  /\ @reg float b64 (@index_array float b64 (da1 [0; 1; 2; 3; 4]%float))
          (@dropna float b64
             (mkDA [] [0; 1; 2; 3; 4]%Z [[PrimFloat.nan; 1; 2; 3; PrimFloat.nan]%float]))
          0 0
     = Ok (mkStat [] [1%float], mkStat [] [0%float])
  /\ @detrend_ND_xr float b64 no_window_error (da1 [0; 1; 2; 3; 4]%float) 3
     = Ok (mkDA [] [0; 1; 2; 3; 4]%Z
             [[0.39999999999999991; 1.2; 2; 2.7999999999999998;
               3.6000000000000001]%float]).
Proof. vm_compute. repeat split. Qed.

(** ** Symmetry *)

Lemma map2_swap {A B C : Type} (f : A -> B -> C) u v :
  map2 f u v = map2 (fun b a => f a b) v u.
Proof.
  revert v; induction u as [|a u IH]; intros [|b v]; simpl; auto.
  now rewrite IH.
Qed.

Lemma SFmul_comm prec emax (a b : spec_float) :
  SFmul prec emax a b = SFmul prec emax b a.
Proof.
  destruct a as [sa|sa| |sa ma ea], b as [sb|sb| |sb mb eb]; simpl;
    rewrite ?(xorb_comm sa sb); try reflexivity.
  now rewrite (Pos.mul_comm ma mb), (Z.add_comm ea eb).
Qed.

(** IEEE multiplication commutes, bit for bit. *)
Lemma binary64_mul_comm (a b : float) : PrimFloat.mul a b = PrimFloat.mul b a.
Proof.
  apply Prim2SF_inj. rewrite !mul_spec. apply SFmul_comm.
Qed.

Section Symmetry.

Context {F : Type} `{Arith F}.
Hypothesis mul_comm : forall a b : F, mul a b = mul b a.

Lemma cell_products_comm (xs ys : list F) :
  cell_products xs ys = cell_products ys xs.
Proof.
  unfold cell_products. rewrite map2_swap.
  apply map2_ext_in. intros a b _. apply mul_comm.
Qed.

Lemma cell_cov_comm n (xs ys : list F) : cell_cov n xs ys = cell_cov n ys xs.
Proof. unfold cell_cov. now rewrite cell_products_comm. Qed.

Lemma cell_cor_comm n (xs ys : list F) : cell_cor n xs ys = cell_cor n ys xs.
Proof.
  unfold cell_cor. now rewrite cell_cov_comm, (mul_comm (nanstd xs)).
Qed.

(** X9.  For aligned arrays and no lag, covariance and correlation are
    symmetric: [cov(x, y)] is [cov(y, x)] and [cor(x, y)] is [cor(y, x)],
    value for value, in any arithmetic whose multiplication commutes
    (binary64 is one). *)
Theorem cov_cor_symmetric (x y : DataArray F) :
  time x = time y -> dims x = dims y ->
  cov x y 0 0 = cov y x 0 0 /\ cor x y 0 0 = cor y x 0 0.
Proof.
  intros Ht Hd.
  assert (Hc : compatible (dims x) (dims y)) by now left.
  assert (Hc' : compatible (dims y) (dims x)) by (left; now symmetry).
  rewrite (cov_unlagged x y Ht Hc), (cov_unlagged y x (eq_sym Ht) Hc').
  rewrite (cor_unlagged x y Ht Hc), (cor_unlagged y x (eq_sym Ht) Hc').
  rewrite (moments_cov_cells x y Hd), (moments_cov_cells y x (eq_sym Hd)).
  rewrite (moments_cor_cells x y Hd), (moments_cor_cells y x (eq_sym Hd)).
  rewrite <- Ht, <- Hd.
  split; do 2 f_equal; rewrite map2_swap; apply map2_ext_in; intros a b _.
  - apply cell_cov_comm.
  - apply cell_cor_comm.
Qed.

End Symmetry.

Lemma cov_cor_symmetric_witness :
  @cov float b64 (da1 [1; 2; 4]%float) (da1 [3; 5; 10]%float) 0 0
  = @cov float b64 (da1 [3; 5; 10]%float) (da1 [1; 2; 4]%float) 0 0
  /\ @cor float b64 (da1 [1; 2; 4]%float) (da1 [3; 5; 10]%float) 0 0
     = @cor float b64 (da1 [3; 5; 10]%float) (da1 [1; 2; 4]%float) 0 0.
Proof.
  apply (@cov_cor_symmetric float b64 binary64_mul_comm
           (da1 [1; 2; 4]%float) (da1 [3; 5; 10]%float)); reflexivity.
Defined.

(** ** Special values of binary64 *)

Lemma binary64_nan_iff (a : float) :
  PrimFloat.is_nan a = true <-> Prim2SF a = S754_nan.
Proof.
  unfold Prim2SF. split.
  - now intros ->.
  - destruct (PrimFloat.is_nan a); [reflexivity|].
    destruct (PrimFloat.is_zero a); [discriminate|].
    destruct (PrimFloat.is_infinity a); [discriminate|].
    destruct (Z.frexp a) as [r e].
    destruct (shr_fexp _ _ _ _ _) as [shr e'].
    destruct (shr_m shr); discriminate.
Qed.

Lemma binary64_zero_iff (a : float) :
  PrimFloat.is_zero a = true <-> exists s, Prim2SF a = S754_zero s.
Proof.
  unfold PrimFloat.is_zero. rewrite eqb_spec.
  change (Prim2SF PrimFloat.zero) with (S754_zero false).
  destruct (Prim2SF a) as [s|s| |s m e]; simpl; split;
    try discriminate; try (intros [s' Hs]; discriminate Hs); eauto;
    destruct s; discriminate.
Qed.

Lemma binary64_infinity_iff (a : float) :
  PrimFloat.is_infinity a = true <-> exists s, Prim2SF a = S754_infinity s.
Proof.
  unfold PrimFloat.is_infinity. rewrite eqb_spec, abs_spec.
  change (Prim2SF PrimFloat.infinity) with (S754_infinity false).
  destruct (Prim2SF a) as [s|s| |s m e]; simpl; split;
    try discriminate; try (intros [s' Hs]; discriminate Hs); eauto.
Qed.

(** The class of a binary64 value, read off its specification. *)
Lemma undefined_iff (a : float) :
  undefined a = true
  <-> Prim2SF a = S754_nan \/ exists s, Prim2SF a = S754_infinity s.
Proof.
  unfold undefined. rewrite orb_true_iff, binary64_nan_iff, binary64_infinity_iff.
  reflexivity.
Qed.

Lemma zero_or_nan_iff (a : float) :
  (PrimFloat.is_zero a || PrimFloat.is_nan a)%bool = true
  <-> (exists s, Prim2SF a = S754_zero s) \/ Prim2SF a = S754_nan.
Proof.
  rewrite orb_true_iff, binary64_nan_iff, binary64_zero_iff. reflexivity.
Qed.

(** 0 * b is 0 or NaN. *)
Lemma mul_zero_or_nan_r (a b : float) :
  (PrimFloat.is_zero b || PrimFloat.is_nan b)%bool = true ->
  (PrimFloat.is_zero (a * b) || PrimFloat.is_nan (a * b))%bool = true.
Proof.
  rewrite !zero_or_nan_iff, mul_spec. unfold SF64mul.
  intros [[s ->]| ->]; destruct (Prim2SF a); simpl; eauto.
Qed.

(** (0 or NaN) / b is 0 or NaN. *)
Lemma div_zero_or_nan_num (a b : float) :
  (PrimFloat.is_zero a || PrimFloat.is_nan a)%bool = true ->
  (PrimFloat.is_zero (a / b) || PrimFloat.is_nan (a / b))%bool = true.
Proof.
  rewrite !zero_or_nan_iff, div_spec. unfold SF64div.
  intros [[s ->]| ->]; destruct (Prim2SF b); simpl; eauto.
Qed.

(** a / (0 or NaN) is NaN or an infinity. *)
Lemma div_by_zero_or_nan (a b : float) :
  (PrimFloat.is_zero b || PrimFloat.is_nan b)%bool = true ->
  undefined (a / b) = true.
Proof.
  rewrite zero_or_nan_iff, undefined_iff, div_spec. unfold SF64div.
  intros [[s ->]| ->]; destruct (Prim2SF a); simpl; eauto.
Qed.

Lemma mul_nan_r (a b : float) :
  PrimFloat.is_nan b = true -> PrimFloat.is_nan (a * b) = true.
Proof.
  rewrite !binary64_nan_iff, mul_spec. unfold SF64mul.
  intros ->. now destruct (Prim2SF a).
Qed.

Lemma mul_nan_l (a b : float) :
  PrimFloat.is_nan a = true -> PrimFloat.is_nan (a * b) = true.
Proof. rewrite binary64_mul_comm. apply mul_nan_r. Qed.

Lemma div_nan_l (a b : float) :
  PrimFloat.is_nan a = true -> PrimFloat.is_nan (a / b) = true.
Proof.
  rewrite !binary64_nan_iff, div_spec. unfold SF64div.
  intros ->. reflexivity.
Qed.

Lemma div_nan_r (a b : float) :
  PrimFloat.is_nan b = true -> PrimFloat.is_nan (a / b) = true.
Proof.
  rewrite !binary64_nan_iff, div_spec. unfold SF64div.
  intros ->. now destruct (Prim2SF a).
Qed.

(** a * (NaN or infinity) is NaN or an infinity. *)
Lemma mul_undefined_r (a b : float) :
  undefined b = true -> undefined (a * b) = true.
Proof.
  rewrite !undefined_iff, mul_spec. unfold SF64mul.
  intros [->|[s ->]]; destruct (Prim2SF a); simpl; eauto.
Qed.

(** a - (NaN or infinity) is NaN or an infinity. *)
Lemma sub_undefined_r (a b : float) :
  undefined b = true -> undefined (a - b) = true.
Proof.
  rewrite !undefined_iff, sub_spec. unfold SF64sub.
  intros [->|[s ->]]; destruct (Prim2SF a) as [sa|sa| |sa ma ea]; simpl; eauto;
    destruct sa, s; simpl; eauto.
Qed.

Lemma mul_zero_or_nan_l (a b : float) :
  (PrimFloat.is_zero a || PrimFloat.is_nan a)%bool = true ->
  (PrimFloat.is_zero (a * b) || PrimFloat.is_nan (a * b))%bool = true.
Proof. rewrite binary64_mul_comm. apply mul_zero_or_nan_r. Qed.

Lemma Forall2_combine_map2 {A B C : Type} (P : A * B -> C -> Prop)
    (g : A -> B -> C) u v :
  (forall a b, P (a, b) (g a b)) -> Forall2 P (combine u v) (map2 g u v).
Proof.
  intros HP. revert v; induction u as [|a u IH]; intros [|b v]; simpl;
    constructor; auto.
Qed.

(** ** Zero variance *)

Section ZeroVariance.

Context {red : Reduction}.

Lemma cell_cor_zero_std n (xs ys : list float) :
  PrimFloat.is_zero (nanstd xs) = true \/ PrimFloat.is_zero (nanstd ys) = true ->
  undefined (cell_cor n xs ys) = true.
Proof.
  intros Hz. unfold cell_cor. apply div_by_zero_or_nan.
  destruct Hz as [Hz|Hz].
  - apply mul_zero_or_nan_l. now rewrite Hz.
  - apply mul_zero_or_nan_r. now rewrite Hz.
Qed.

Lemma cell_slope_zero_std n (xs ys : list float) :
  PrimFloat.is_zero (nanstd xs) = true ->
  undefined (cell_slope n xs ys) = true.
Proof.
  intros Hz. unfold cell_slope. apply div_by_zero_or_nan.
  apply mul_zero_or_nan_l. now rewrite Hz.
Qed.

Lemma cell_intercept_zero_std n (xs ys : list float) :
  PrimFloat.is_zero (nanstd xs) = true ->
  undefined (cell_intercept n xs ys) = true.
Proof.
  intros Hz. unfold cell_intercept.
  apply sub_undefined_r, mul_undefined_r. now apply cell_slope_zero_std.
Qed.

(** The three lines on arrays of the same dimensions, cell by cell. *)
Lemma moments_zero_std (x y : DataArray float) :
  dims x = dims y ->
  cellwise (fun xs ys c =>
              PrimFloat.is_zero (nanstd xs) = true
              \/ PrimFloat.is_zero (nanstd ys) = true -> undefined c = true)
           x y (moments_cor x y)
  /\ cellwise (fun xs _ c =>
                 PrimFloat.is_zero (nanstd xs) = true -> undefined c = true)
              x y (moments_slope x y)
  /\ cellwise (fun xs _ c =>
                 PrimFloat.is_zero (nanstd xs) = true -> undefined c = true)
              x y (moments_intercept x y).
Proof.
  intros Hd. unfold cellwise.
  rewrite moments_cor_cells, moments_slope_cells, moments_intercept_cells
    by assumption.
  cbn [cell].
  conjuncts; apply Forall2_combine_map2; intros xs ys; cbn [fst snd].
  - apply cell_cor_zero_std.
  - apply cell_slope_zero_std.
  - apply cell_intercept_zero_std.
Qed.

(** X12.  For arrays with the same time axis and dimensions and no lag, in
    binary64: [cor] and [reg] return, and in a cell where the standard
    deviation computed for x or for y is zero, [cor] is NaN or an infinity;
    in a cell where the one computed for x is zero, the slope and the
    intercept of [reg] are NaN or an infinity.  Nothing is raised and
    nothing is guarded. *)
Theorem zero_std_gives_undefined (x y : DataArray float) :
  time x = time y -> dims x = dims y ->
  exists c slope intercept,
    cor x y 0 0 = Ok c /\ reg x y 0 0 = Ok (slope, intercept)
    /\ cellwise (fun xs ys c =>
                   PrimFloat.is_zero (nanstd xs) = true
                   \/ PrimFloat.is_zero (nanstd ys) = true -> undefined c = true)
                x y c
    /\ cellwise (fun xs _ c =>
                   PrimFloat.is_zero (nanstd xs) = true -> undefined c = true)
                x y slope
    /\ cellwise (fun xs _ c =>
                   PrimFloat.is_zero (nanstd xs) = true -> undefined c = true)
                x y intercept.
Proof.
  intros Ht Hd.
  exists (moments_cor x y), (moments_slope x y), (moments_intercept x y).
  rewrite cor_unlagged, reg_unlagged by (try assumption; now left).
  split; [reflexivity|]. split; [reflexivity|].
  now apply moments_zero_std.
Qed.

End ZeroVariance.

Lemma zero_std_gives_undefined_witness :
  exists c slope intercept,
    @cor float b64 (da1 [1; 1]%float) (da1 [1; 2]%float) 0 0 = Ok c
    /\ @reg float b64 (da1 [1; 1]%float) (da1 [1; 2]%float) 0 0
       = Ok (slope, intercept)
    /\ cellwise (fun xs ys c =>
                   PrimFloat.is_zero (@nanstd float b64 xs) = true
                   \/ PrimFloat.is_zero (@nanstd float b64 ys) = true
                   -> undefined c = true)
                (da1 [1; 1]%float) (da1 [1; 2]%float) c
    /\ cellwise (fun xs _ c =>
                   PrimFloat.is_zero (@nanstd float b64 xs) = true
                   -> undefined c = true)
                (da1 [1; 1]%float) (da1 [1; 2]%float) slope
    /\ cellwise (fun xs _ c =>
                   PrimFloat.is_zero (@nanstd float b64 xs) = true
                   -> undefined c = true)
                (da1 [1; 1]%float) (da1 [1; 2]%float) intercept.
Proof.
  apply (@zero_std_gives_undefined in_order (da1 [1; 1]%float) (da1 [1; 2]%float));
    reflexivity.
Defined.

(** ** Few time positions *)

Section FewPoints.

Context {red : Reduction}.

(** scipy's t.sf returns NaN where the number of degrees of freedom is not
    positive. *)
Variable t_sf : float -> Z -> float.
Hypothesis t_sf_bad_df :
  forall a df, (df <= 0)%Z -> PrimFloat.is_nan (t_sf a df) = true.

Lemma p_value_few_points (n : nat) (c : float) :
  (n <= 2)%nat -> PrimFloat.is_nan (p_value t_sf n c) = true.
Proof.
  intros Hn. unfold p_value. apply mul_nan_l, t_sf_bad_df. lia.
Qed.

Lemma t_statistic_two_points (c : float) :
  (PrimFloat.is_zero (t_statistic 2 c) || PrimFloat.is_nan (t_statistic 2 c))%bool
  = true.
Proof.
  unfold t_statistic. apply div_zero_or_nan_num, mul_zero_or_nan_r.
  reflexivity.
Qed.

Lemma t_statistic_one_point (n : nat) (c : float) :
  (n < 2)%nat -> PrimFloat.is_nan (t_statistic n c) = true.
Proof.
  intros Hn. unfold t_statistic. apply div_nan_l, mul_nan_r.
  destruct n as [|[|n]]; [reflexivity|reflexivity|lia].
Qed.

Lemma std_error_few_points (n : nat) (c s : float) :
  (n <= 2)%nat ->
  undefined (std_error n c s) = true
  /\ ((n < 2)%nat -> PrimFloat.is_nan (std_error n c s) = true).
Proof.
  intros Hn. unfold std_error. split.
  - apply div_by_zero_or_nan.
    destruct (Nat.eq_dec n 2) as [->|Hne]; [apply t_statistic_two_points|].
    rewrite t_statistic_one_point by lia. apply orb_true_r.
  - intros Hlt. now apply div_nan_r, t_statistic_one_point.
Qed.

(** The significance lines on aligned arrays with at most two time
    positions. *)
Lemma moments_all_few_points (x y : DataArray float) :
  (length (time x) <= 2)%nat ->
  let r := moments_all t_sf x y in
  Forall (fun p => PrimFloat.is_nan p = true) (cell (lr_pval r))
  /\ Forall (fun e => undefined e = true) (cell (lr_stderr r))
  /\ ((length (time x) < 2)%nat ->
      Forall (fun e => PrimFloat.is_nan e = true) (cell (lr_stderr r))).
Proof.
  intros Hn r.
  destruct (moments_all_significance t_sf x y) as (Hp & He & _).
  fold r in Hp, He. rewrite Hp, He.
  conjuncts.
  - apply Forall_map, Forall_forall. intros c _. now apply p_value_few_points.
  - apply Forall_map2. intros s c _ _. now apply std_error_few_points.
  - intros Hlt. apply Forall_map2. intros s c _ _.
    now apply std_error_few_points.
Qed.

(** X13.  With at most two time positions left after lagging and aligning
    (n - 2 <= 0), [linregress_ND] returns, and raises nothing: every
    p-value is NaN and every standard error is NaN or an infinity; with
    fewer than two positions every standard error is NaN.  (binary64; t.sf
    returns NaN for a number of degrees of freedom that is not positive.) *)
Theorem linregress_ND_few_points (x y x' y' : DataArray float) (lagx lagy : Z) :
  prepared x y lagx lagy = Ok (x', y') ->
  (length (time x') <= 2)%nat ->
  exists r,
    linregress_ND t_sf x y lagx lagy = Ok r
    /\ Forall (fun p => PrimFloat.is_nan p = true) (cell (lr_pval r))
    /\ Forall (fun e => undefined e = true) (cell (lr_stderr r))
    /\ ((length (time x') < 2)%nat ->
        Forall (fun e => PrimFloat.is_nan e = true) (cell (lr_stderr r))).
Proof.
  intros Hp Hn. exists (moments_all t_sf x' y').
  rewrite linregress_ND_prepared, Hp. split; [reflexivity|].
  now apply moments_all_few_points.
Qed.

(** C7 (amended).  Whenever [linregress_ND] returns, with n the number of
    time positions the alignment left: the p-value of a cell is
    2*sf(|t|, n-2) for t = c*sqrt(n-2)/sqrt(1-c^2), c the correlation of
    the cell and sf the survival function of Student's t distribution, and
    the standard error is s/t, s the slope of the cell; both carry the
    labels of the correlation.  When n - 2 <= 0 no error is raised: every
    p-value is NaN, and every standard error is NaN or an infinity (NaN
    when n < 2).  (binary64; t.sf returns NaN for a number of degrees of
    freedom that is not positive.) *)
Theorem linregress_ND_significance_and_few_points
    (x y : DataArray float) (lagx lagy : Z) r :
  linregress_ND t_sf x y lagx lagy = Ok r ->
  exists x' y',
    prepared x y lagx lagy = Ok (x', y')
    /\ cell (lr_pval r) = map (p_value t_sf (length (time x'))) (cell (lr_cor r))
    /\ cell (lr_stderr r)
       = map2 (fun s c => div s (t_statistic (length (time x')) c))
              (cell (lr_slope r)) (cell (lr_cor r))
    /\ sdims (lr_pval r) = sdims (lr_cor r)
    /\ sdims (lr_stderr r) = sdims (lr_cor r)
    /\ ((length (time x') <= 2)%nat ->
        Forall (fun p => PrimFloat.is_nan p = true) (cell (lr_pval r))
        /\ Forall (fun e => undefined e = true) (cell (lr_stderr r)))
    /\ ((length (time x') < 2)%nat ->
        Forall (fun e => PrimFloat.is_nan e = true) (cell (lr_stderr r))).
Proof.
  intros Hr. destruct (linregress_ND_ok _ _ _ _ _ Hr) as (x' & y' & Hp & ->).
  exists x', y'. split; [exact Hp|].
  destruct (moments_all_significance t_sf x' y') as (H1 & H2 & H3 & H4).
  conjuncts; auto.
  - intros Hn. destruct (moments_all_few_points x' y' Hn) as (Ha & Hb & _).
    now split.
  - intros Hn.
    destruct (@moments_all_few_points x' y') as (_ & _ & Hc); [lia|].
    now apply Hc.
Qed.

End FewPoints.

Lemma linregress_ND_few_points_witness :
  exists r,
    @linregress_ND float b64
      (fun _ df => if (df <=? 0)%Z then PrimFloat.nan else PrimFloat.zero)
      (da1 [1; 0.25]%float) (da1 [1.5; 0.125]%float) 0 0 = Ok r
    /\ Forall (fun p => PrimFloat.is_nan p = true) (cell (lr_pval r))
    /\ Forall (fun e => undefined e = true) (cell (lr_stderr r))
    /\ ((length (time (da1 [1; 0.25]%float)) < 2)%nat ->
        Forall (fun e => PrimFloat.is_nan e = true) (cell (lr_stderr r))).
Proof.
  refine (@linregress_ND_few_points in_order
            (fun _ df => if (df <=? 0)%Z then PrimFloat.nan else PrimFloat.zero)
            _
            (da1 [1; 0.25]%float) (da1 [1.5; 0.125]%float)
            (da1 [1; 0.25]%float) (da1 [1.5; 0.125]%float) 0 0 _ _).
  - intros a df Hdf. apply Z.leb_le in Hdf. now rewrite Hdf.
  - reflexivity.
  - simpl. lia.
Defined.

Lemma linregress_ND_significance_and_few_points_witness :
  exists x' y',
    @prepared float b64 (da1 [1; 0.25]%float) (da1 [1.5; 0.125]%float) 0 0
    = Ok (x', y')
    /\ sdims (lr_pval (@moments_all float b64
                         (fun _ df => if (df <=? 0)%Z then PrimFloat.nan
                                      else PrimFloat.zero)
                         (da1 [1; 0.25]%float) (da1 [1.5; 0.125]%float)))
       = sdims (lr_cor (@moments_all float b64
                          (fun _ df => if (df <=? 0)%Z then PrimFloat.nan
                                       else PrimFloat.zero)
                          (da1 [1; 0.25]%float) (da1 [1.5; 0.125]%float))).
Proof.
  assert (Hbad : forall (a : float) (df : Z), (df <= 0)%Z ->
            PrimFloat.is_nan (if (df <=? 0)%Z then PrimFloat.nan else PrimFloat.zero)
            = true).
  { intros a df Hdf. apply Z.leb_le in Hdf. now rewrite Hdf. }
  destruct (@linregress_ND_significance_and_few_points in_order
              (fun _ df => if (df <=? 0)%Z then PrimFloat.nan else PrimFloat.zero)
              Hbad
              (da1 [1; 0.25]%float) (da1 [1.5; 0.125]%float) 0 0
              (@moments_all float b64
                 (fun _ df => if (df <=? 0)%Z then PrimFloat.nan else PrimFloat.zero)
                 (da1 [1; 0.25]%float) (da1 [1.5; 0.125]%float)) eq_refl)
    as (x' & y' & Hp & _ & _ & Hd & _).
  exists x', y'. split; [exact Hp | exact Hd].
Defined.

(** C7, as the specification words it, fails for n = 2: the statistics are
    not all NaN.  For x = [1, 0.2] and y = [1.3, 0.1] the correlation
    computed is 0.99999999999999978, so the t-statistic is 0/sqrt(1-c^2),
    zero, a defined number, and the standard error, slope/0, is an
    infinity; only the p-value is NaN. *)
Lemma linregress_ND_two_points_not_all_nan :
  @linregress_ND float b64
    (fun _ df => if (df <=? 0)%Z then PrimFloat.nan else PrimFloat.zero)
    (da1 [1; 0.2]%float) (da1 [1.3; 0.1]%float) 0 0
  = Ok (mkStat [] [0.23999999999999999%float],
        mkStat [] [0.99999999999999978%float],
        mkStat [] [1.4999999999999996%float],
        mkStat [] [(-0.19999999999999962)%float],
        mkStat [] [PrimFloat.nan],
        mkStat [] [PrimFloat.infinity])
  /\ @t_statistic float b64 2 0.99999999999999978%float = 0%float.
Proof. vm_compute. split; reflexivity. Qed.

(** ** No overlap in time *)

Section NoCommonTime.

Context {red : Reduction}.

(** numpy's sum of no value is 0.0. *)
Hypothesis sum_of_nothing : add_reduce [] = PrimFloat.zero.

Lemma empty_cell_statistics :
  cell_cov 0 [] [] = PrimFloat.nan
  /\ cell_cor 0 [] [] = PrimFloat.nan
  /\ cell_slope 0 [] [] = PrimFloat.nan
  /\ cell_intercept 0 [] [] = PrimFloat.nan.
Proof.
  unfold cell_intercept, cell_slope, cell_cor, cell_cov, cell_products,
    nanstd, nanvar, nanmean, nansum, replace_nan, count_valid, of_nat.
  cbn. rewrite sum_of_nothing. repeat split.
Qed.

(** The statistics when lagging and aligning leave no time position. *)
Lemma no_time_left (x y x' y' : DataArray float) (lagx lagy : Z) :
  wf x -> wf y -> dims x = dims y ->
  prepared x y lagx lagy = Ok (x', y') -> time x' = [] ->
  let nans := mkStat (dims x) (repeat PrimFloat.nan (ncells (dims x))) in
  cov x y lagx lagy = Ok nans
  /\ cor x y lagx lagy = Ok nans
  /\ reg x y lagx lagy = Ok (nans, nans).
Proof.
  intros Hx Hy Hd Hp Ht nans.
  rewrite cov_prepared, cor_prepared, reg_prepared, Hp.
  unfold rmap. cbn [bind fst snd].
  destruct (prepared_ok _ _ _ _ Hp)
    as (_ & [Hdx Hlx] & [Hdy Hly] & Htt & Hwx & Hwy).
  destruct (@moments_no_time _ _ x' y') as (Hcov & Hcor & Hslope & Hint);
    auto using wf_no_time; [congruence | apply wf_no_time; auto; congruence |].
  destruct empty_cell_statistics as (E1 & E2 & E3 & E4).
  rewrite Hcov, Hcor, Hslope, Hint, E1, E2, E3, E4, Hlx, Hly, Hdx.
  destruct Hx as [Hx _], Hy as [Hy _]. rewrite Hx, Hy, <- Hd, Nat.min_id.
  repeat split.
Qed.

Lemma disjoint_prepared (x y : DataArray float) (lagx lagy : Z) :
  wf x -> wf y -> dims x = dims y ->
  NoDup (time x) -> NoDup (time y) ->
  (forall t, In t (time (lagged x lagx)) -> In t (time (lagged y lagy)) -> False) ->
  exists x' y', prepared x y lagx lagy = Ok (x', y') /\ time x' = [].
Proof.
  intros Hx Hy Hd Hux Huy Hdis.
  destruct (lagged_shape x lagx) as [Hdx _], (lagged_shape y lagy) as [Hdy _].
  destruct (@align_disjoint _ _ (lagged x lagx) (lagged y lagy))
    as (x' & y' & Ha & Ht & _); auto using lagged_wf, lagged_NoDup.
  { left. congruence. }
  now exists x', y'.
Qed.

(** X10.  When x and y, arrays of the same dimensions whose time labels
    are unique, have no time label in common, whatever the lags, [cov],
    [cor] and [reg] return NaN in every cell (binary64), one NaN per cell:
    the statistics of an empty overlap are 0/0, not an exception. *)
Theorem no_common_time_gives_nan (x y : DataArray float) (lagx lagy : Z) :
  wf x -> wf y -> dims x = dims y ->
  NoDup (time x) -> NoDup (time y) ->
  (forall t, In t (time x) -> In t (time y) -> False) ->
  let nans := mkStat (dims x) (repeat PrimFloat.nan (ncells (dims x))) in
  cov x y lagx lagy = Ok nans
  /\ cor x y lagx lagy = Ok nans
  /\ reg x y lagx lagy = Ok (nans, nans).
Proof.
  intros Hx Hy Hd Hux Huy Hdis.
  destruct (@disjoint_prepared x y lagx lagy) as (x' & y' & Hp & Ht); auto.
  { intros t H1 H2. apply (Hdis t); eauto using lagged_time_subset. }
  now apply (@no_time_left x y x' y' lagx lagy).
Qed.

(** X11.  When a lag is at least as long as the time axis of its array,
    lagging leaves that array without a time position, and for arrays of
    the same dimensions whose time labels are unique [cov], [cor] and
    [reg] return NaN in every cell (binary64) instead of raising. *)
Theorem lag_beyond_series_gives_nan (x y : DataArray float) (lagx lagy : Z) :
  wf x -> wf y -> dims x = dims y ->
  NoDup (time x) -> NoDup (time y) ->
  (Z.of_nat (length (time x)) <= Z.abs lagx)%Z
  \/ (Z.of_nat (length (time y)) <= Z.abs lagy)%Z ->
  let nans := mkStat (dims x) (repeat PrimFloat.nan (ncells (dims x))) in
  cov x y lagx lagy = Ok nans
  /\ cor x y lagx lagy = Ok nans
  /\ reg x y lagx lagy = Ok (nans, nans).
Proof.
  intros Hx Hy Hd Hux Huy Hlag.
  destruct (@disjoint_prepared x y lagx lagy) as (x' & y' & Hp & Ht); auto.
  { intros t H1 H2. destruct Hlag as [Hlag|Hlag].
    - rewrite (@lagged_far_no_time float binary64 eq_refl x lagx) in H1; auto.
    - rewrite (@lagged_far_no_time float binary64 eq_refl y lagy) in H2; auto. }
  now apply (@no_time_left x y x' y' lagx lagy).
Qed.


End NoCommonTime.

Lemma no_common_time_gives_nan_witness :
  @cov float b64 (mkDA [] [0; 1; 2]%Z [[1; 2; 4]%float])
       (mkDA [] [5; 6; 7]%Z [[3; 5; 10]%float]) 0 1
  = Ok (mkStat [] [PrimFloat.nan]).
Proof.
  apply (@no_common_time_gives_nan in_order eq_refl
           (mkDA [] [0; 1; 2]%Z [[1; 2; 4]%float])
           (mkDA [] [5; 6; 7]%Z [[3; 5; 10]%float]) 0 1).
  - split; [reflexivity | repeat constructor].
  - split; [reflexivity | repeat constructor].
  - reflexivity.
  - repeat constructor; simpl; intuition discriminate.
  - repeat constructor; simpl; intuition discriminate.
  - simpl. intros t [<-|[<-|[<-|[]]]] [E|[E|[E|[]]]]; discriminate E.
Defined.

Lemma lag_beyond_series_gives_nan_witness :
  @cor float b64 (da1 [1; 2; 4]%float) (da1 [3; 5; 10]%float) 0 (-3)
  = Ok (mkStat [] [PrimFloat.nan]).
Proof.
  apply (@lag_beyond_series_gives_nan in_order eq_refl
           (da1 [1; 2; 4]%float) (da1 [3; 5; 10]%float) 0 (-3)).
  - split; [reflexivity | repeat constructor].
  - split; [reflexivity | repeat constructor].
  - reflexivity.
  - repeat constructor; simpl; intuition discriminate.
  - repeat constructor; simpl; intuition discriminate.
  - right. simpl. lia.
Defined.



(** ** Lags, in general *)

Lemma keep_all {A : Type} (l : list A) (k : nat) :
  (length l <= k)%nat -> keep (repeat true k) l = l.
Proof.
  unfold keep. revert l. induction k as [|k IH]; intros [|a l] Hl; simpl in *;
    try reflexivity; try lia.
  f_equal. apply IH. lia.
Qed.

Lemma keep_firstn {A : Type} (l : list A) (m k : nat) :
  keep (repeat true m ++ repeat false k) l = firstn m l.
Proof.
  revert l. induction m as [|m IH]; intros l.
  - apply keep_none.
  - destruct l as [|a l]; [reflexivity|].
    unfold keep in *. simpl. f_equal. apply IH.
Qed.

Lemma keep_skipn {A : Type} (l : list A) (m k : nat) :
  (length l <= m + k)%nat ->
  keep (repeat false m ++ repeat true k) l = skipn m l.
Proof.
  revert l. induction m as [|m IH]; intros l Hl.
  - apply keep_all. exact Hl.
  - destruct l as [|a l]; [reflexivity|].
    unfold keep in *. simpl. apply IH. simpl in Hl. lia.
Qed.

Lemma map_seq_const (f : nat -> bool) (b : bool) (start k : nat) :
  (forall i, (start <= i < start + k)%nat -> f i = b) ->
  map f (seq start k) = repeat b k.
Proof.
  revert start. induction k as [|k IH]; intros start Hf; [reflexivity|].
  simpl. rewrite Hf by lia. f_equal. apply IH. intros i Hi. apply Hf. lia.
Qed.

Section GeneralLag.

Context {F : Type} `{Arith F}.
Hypothesis isnan_nan : isnan nan = true.

Lemma valid_at_ext (a : DataArray F) (g : list F -> list F) (i j : nat) :
  (forall s, In s (series a) -> nth i (g s) nan = nth j s nan) ->
  valid_at (mkDA (dims a) (time a) (map g (series a))) i = valid_at a j.
Proof.
  intros Hg. unfold valid_at. simpl. rewrite existsb_map.
  apply existsb_ext_in. intros s Hs. now rewrite Hg.
Qed.

Lemma valid_at_all_nan (a : DataArray F) (g : list F -> list F) (i : nat) :
  (forall s, In s (series a) -> nth i (g s) nan = nan) ->
  valid_at (mkDA (dims a) (time a) (map g (series a))) i = false.
Proof.
  intros Hg. unfold valid_at. simpl. rewrite existsb_map.
  apply existsb_none. intros s Hs. rewrite Hg by assumption.
  unfold notnan. now rewrite isnan_nan.
Qed.

(** A lag towards the future: [shift(time=-L)] with L > 0. *)
Lemma lagged_forward (a : DataArray F) (L : nat) :
  wf a -> (forall i, (i < length (time a))%nat -> valid_at a i = true) ->
  (0 < L <= length (time a))%nat ->
  dropna (shift a (- Z.of_nat L))
  = mkDA (dims a) (firstn (length (time a) - L) (time a))
         (map (skipn L) (series a)).
Proof.
  intros [_ Hl] Hvalid HL. rewrite Forall_forall in Hl.
  set (n := length (time a)) in *.
  assert (Hshift : forall s, In s (series a) ->
            shift_list (- Z.of_nat L) s = skipn L s ++ repeat nan L).
  { intros s Hs. unfold shift_list.
    destruct (0 <=? - Z.of_nat L)%Z eqn:E; [apply Z.leb_le in E; lia|].
    rewrite Z.opp_involutive, Nat2Z.id. f_equal. f_equal.
    rewrite (Hl s Hs). fold n. lia. }
  assert (Hmask : map (valid_at (shift a (- Z.of_nat L))) (seq 0 n)
                  = repeat true (n - L) ++ repeat false L).
  { unfold shift. replace n with ((n - L) + L)%nat at 1 by lia.
    rewrite seq_app, map_app. simpl. f_equal.
    - apply map_seq_const. intros i Hi.
      rewrite (@valid_at_ext a (shift_list (- Z.of_nat L)) i (L + i)).
      + apply Hvalid. fold n. lia.
      + intros s Hs. rewrite (Hshift s Hs), app_nth1, nth_skipn; auto.
        rewrite length_skipn, (Hl s Hs). fold n. lia.
    - apply map_seq_const. intros i Hi.
      apply valid_at_all_nan. intros s Hs.
      rewrite (Hshift s Hs), app_nth2 by (rewrite length_skipn, (Hl s Hs); fold n; lia).
      apply nth_repeat_same. }
  unfold dropna. cbn [time dims series shift]. fold n. rewrite Hmask. f_equal.
  - apply keep_firstn.
  - rewrite map_map. apply map_ext_in. intros s Hs.
    rewrite (Hshift s Hs), keep_firstn, firstn_app, length_skipn, (Hl s Hs).
    replace (n - L - (n - L))%nat with 0%nat by lia.
    rewrite firstn_all2 by (rewrite length_skipn, (Hl s Hs); lia).
    simpl. apply app_nil_r.
Qed.

(** A lag towards the past: [shift(time=L)] with L > 0. *)
Lemma lagged_backward (a : DataArray F) (L : nat) :
  wf a -> (forall i, (i < length (time a))%nat -> valid_at a i = true) ->
  (0 < L <= length (time a))%nat ->
  dropna (shift a (Z.of_nat L))
  = mkDA (dims a) (skipn L (time a))
         (map (firstn (length (time a) - L)) (series a)).
Proof.
  intros [_ Hl] Hvalid HL. rewrite Forall_forall in Hl.
  set (n := length (time a)) in *.
  assert (Hshift : forall s, In s (series a) ->
            shift_list (Z.of_nat L) s = repeat nan L ++ firstn (n - L) s).
  { intros s Hs. unfold shift_list.
    destruct (0 <=? Z.of_nat L)%Z eqn:E; [|apply Z.leb_gt in E; lia].
    rewrite Nat2Z.id, firstn_app, repeat_length, (Hl s Hs). fold n.
    f_equal. rewrite firstn_all2 by (rewrite repeat_length; lia). reflexivity. }
  assert (Hmask : map (valid_at (shift a (Z.of_nat L))) (seq 0 n)
                  = repeat false L ++ repeat true (n - L)).
  { unfold shift. replace n with (L + (n - L))%nat at 1 by lia.
    rewrite seq_app, map_app. simpl. f_equal.
    - apply map_seq_const. intros i Hi.
      apply valid_at_all_nan. intros s Hs.
      rewrite (Hshift s Hs), app_nth1 by (rewrite repeat_length; lia).
      apply nth_repeat_same.
    - apply map_seq_const. intros i Hi.
      rewrite (@valid_at_ext a (shift_list (Z.of_nat L)) i (i - L)).
      + apply Hvalid. fold n. lia.
      + intros s Hs.
        rewrite (Hshift s Hs), app_nth2, repeat_length by (rewrite repeat_length; lia).
        rewrite nth_firstn.
        destruct (i - L <? n - L)%nat eqn:E; [reflexivity|].
        apply Nat.ltb_ge in E. lia. }
  unfold dropna. cbn [time dims series shift]. fold n. rewrite Hmask. f_equal.
  - apply keep_skipn. fold n. lia.
  - rewrite map_map. apply map_ext_in. intros s Hs.
    rewrite (Hshift s Hs), keep_skipn
      by (rewrite length_app, repeat_length, length_firstn, (Hl s Hs); lia).
    rewrite skipn_app, repeat_length, Nat.sub_diag.
    rewrite skipn_all2 by (rewrite repeat_length; lia). reflexivity.
Qed.

End GeneralLag.

Section LagByHand.

Context {F : Type} `{Arith F}.
Hypothesis isnan_nan : isnan nan = true.

Lemma dropna_shift_far (a : DataArray F) (k : Z) :
  wf a -> (Z.of_nat (length (time a)) <= Z.abs k)%Z ->
  dropna (shift a k) = mkDA (dims a) [] (map (fun _ => []) (series a)).
Proof.
  intros [_ Hl] Hk. rewrite Forall_forall in Hl.
  assert (Hmask : map (valid_at (shift a k)) (seq 0 (length (time a)))
                  = repeat false (length (time a))).
  { apply map_seq_false. intros i Hi. unfold valid_at, shift. simpl.
    rewrite existsb_map. apply existsb_none. intros s Hs.
    rewrite shift_list_far by (rewrite (Hl s Hs); lia).
    rewrite nth_repeat_same. unfold notnan. now rewrite isnan_nan. }
  unfold dropna. cbn [time dims series shift]. rewrite Hmask. f_equal.
  - apply keep_none.
  - rewrite map_map. apply map_ext. intros s. apply keep_none.
Qed.

Lemma lagged_by_hand (a : DataArray F) (lag : Z) :
  wf a -> (forall i, (i < length (time a))%nat -> valid_at a i = true) ->
  lagged a lag = lag_by_hand a lag.
Proof.
  intros Hwf Hvalid. pose proof Hwf as [_ Hl]. rewrite Forall_forall in Hl.
  unfold lagged, lag_by_hand.
  destruct (lag =? 0)%Z eqn:E0; cbn [negb].
  - apply Z.eqb_eq in E0. subst lag. simpl. rewrite Nat.sub_0_r, firstn_all.
    destruct a as [d t s]. simpl. f_equal. symmetry.
    rewrite <- (map_id s) at 2. apply map_ext. reflexivity.
  - apply Z.eqb_neq in E0.
    destruct (0 <=? lag)%Z eqn:E.
    + apply Z.leb_le in E.
      destruct (le_lt_dec (Z.to_nat lag) (length (time a))) as [Hle|Hgt].
      * replace (- lag)%Z with (- Z.of_nat (Z.to_nat lag))%Z by lia.
        apply lagged_forward; auto. lia.
      * rewrite dropna_shift_far by (auto; lia).
        replace (length (time a) - Z.to_nat lag)%nat with 0%nat by lia.
        simpl. f_equal. apply map_ext_in. intros s Hs.
        rewrite skipn_all2; [reflexivity|]. rewrite (Hl s Hs). lia.
    + apply Z.leb_gt in E.
      destruct (le_lt_dec (Z.to_nat (- lag)) (length (time a))) as [Hle|Hgt].
      * replace (- lag)%Z with (Z.of_nat (Z.to_nat (- lag)))%Z at 1 by lia.
        apply lagged_backward; auto. lia.
      * rewrite dropna_shift_far by (auto; lia).
        replace (length (time a) - Z.to_nat (- lag))%nat with 0%nat by lia.
        simpl. f_equal. symmetry. apply skipn_all2. lia.
Qed.

(** X17.  The lag parameters, for arrays that have a value at every time
    position: [cov], [cor] and [reg] with lags [lagx], [lagy] return what
    they return without lags on the arrays lagged by hand, where a lag
    L >= 0 puts the value of position i+L under the label of position i
    and removes the last L labels, and a lag L < 0 puts the value of
    position i under the label of position i-L and removes the first -L
    labels. *)
Theorem lags_are_slices (x y : DataArray F) (lagx lagy : Z) :
  wf x -> wf y ->
  (forall i, (i < length (time x))%nat -> valid_at x i = true) ->
  (forall i, (i < length (time y))%nat -> valid_at y i = true) ->
  cov x y lagx lagy = cov (lag_by_hand x lagx) (lag_by_hand y lagy) 0 0
  /\ cor x y lagx lagy = cor (lag_by_hand x lagx) (lag_by_hand y lagy) 0 0
  /\ reg x y lagx lagy = reg (lag_by_hand x lagx) (lag_by_hand y lagy) 0 0.
Proof.
  intros Hx Hy Hvx Hvy.
  rewrite <- (lagged_by_hand lagx Hx Hvx), <- (lagged_by_hand lagy Hy Hvy).
  rewrite !cov_prepared, !cor_prepared, !reg_prepared.
  unfold prepared. cbn [lagged Z.eqb negb]. auto.
Qed.

End LagByHand.

Lemma lags_are_slices_witness :
  @cov float b64 (da1 [1; 2; 3; 4]%float) (da1 [5; 1; 7; 4]%float) 2 (-1)
  = @cov float b64 (lag_by_hand (da1 [1; 2; 3; 4]%float) 2)
         (lag_by_hand (da1 [5; 1; 7; 4]%float) (-1)) 0 0.
Proof.
  apply (@lags_are_slices float b64 eq_refl
           (da1 [1; 2; 3; 4]%float) (da1 [5; 1; 7; 4]%float) 2 (-1)).
  - split; [reflexivity | repeat constructor].
  - split; [reflexivity | repeat constructor].
  - intros i Hi. simpl in Hi.
    destruct i as [|[|[|[|i]]]]; try reflexivity; lia.
  - intros i Hi. simpl in Hi.
    destruct i as [|[|[|[|i]]]]; try reflexivity; lia.
Defined.

